(** * pgrok: a shallow embedding of the client configuration, the tunnel
      store, the management handlers and the reverse-tunnel broker.

    Layout of the development:
    - [GoStrings]: the pieces of Go's [strconv], [fmt] and [strings] that the
      client calls ([Atoi], [%d] formatting, [Contains], byte slicing);
    - [Client]: [deriveHTTPForwardAddress] (pgrok/cli/init.go) and
      [Profile], [Config], [ApplyProfile] (the client's configuration file);
    - [Database]: the [tunnels] table and the queries of
      internal/database/tunnels.go, with the constraints its gorm tags declare;
    - [WebServer]: the DELETE and PATCH handlers of pgrokd/cli/web_server.go;
    - [Broker]: the registry, the sessions and the frame protocol;
    - [Scenario]: concrete stores and brokers on which the theorems are
      run;
    - [GoStringsMore], [ClientInit]: [loadConfig] and [actionInit] of the
      client;
    - [PrincipalStore]: the queries of internal/database/principals.go;
    - [OIDC], [WebApi]: [handleOIDCCallback], the routes of the group
      [/api] with their middleware, and the sign-in and sign-out routes of
      pgrokd/cli/web_server.go;
    - [DatabaseHistory], [Cases]: tunnels over time, and more concrete
      cases.
    The theorems follow, module by module ([ClientFacts], [DatabaseFacts],
    [WebServerFacts], [BrokerFacts], then [DatabaseMore],
    [PrincipalStoreFacts], [ClientMore], [OIDCFacts], [WebApiFacts]). *)

From Stdlib Require Import ZArith String Ascii List Bool Lia.
From Stdlib Require Import Numbers.DecimalString.
From stdpp Require Import base option list gmap strings.

Local Open Scope Z_scope.

(* ===================================================================== *)
(** * Go library functions used by the client                            *)
(* ===================================================================== *)

Module GoStrings.

Local Open Scope string_scope.

(** Go's [int] is 64 bits wide on the platforms pgrok is built for. *)
Definition maxInt : Z := 2 ^ 63 - 1.
Definition minInt : Z := - 2 ^ 63.

Definition is_digit (c : ascii) : bool :=
  ((48 <=? Z.of_nat (nat_of_ascii c)) && (Z.of_nat (nat_of_ascii c) <=? 57))%Z.

Definition digit_val (c : ascii) : Z := Z.of_nat (nat_of_ascii c) - 48.

Definition is_sign (c : ascii) : bool :=
  Ascii.eqb c "-"%char || Ascii.eqb c "+"%char.

(** The digit loop of [strconv.Atoi] / [ParseUint] in base 10:
    [n = n*10 + int(ch - '0')], a syntax error on any other byte. *)
Fixpoint parse_digits (n : Z) (s : string) : option Z :=
  match s with
  | EmptyString => Some n
  | String ch s' =>
      if is_digit ch then parse_digits (n * 10 + digit_val ch) s' else None
  end.

(** [strconv.Atoi]: an optional sign, then at least one decimal digit and
    nothing else; the value has to fit [int].  [None] stands for a non-nil
    [error] (syntax or range), the only thing the caller looks at. *)
Definition Atoi (s : string) : option Z :=
  match s with
  | EmptyString => None
  | String c rest =>
      let body := if is_sign c then rest else s in
      match body with
      | EmptyString => None
      | _ =>
          match parse_digits 0 body with
          | None => None
          | Some n =>
              let v := if Ascii.eqb c "-"%char then - n else n in
              if ((minInt <=? v) && (v <=? maxInt))%Z then Some v else None
          end
      end
  end.

(** [strconv.ParseInt(s, 10, 64)]: the value and whether the error is
    non-nil.  A syntax error yields 0; a value out of range is clamped to
    the nearest bound and reported as a range error. *)
Definition ParseInt (s : string) : Z * bool :=
  match s with
  | EmptyString => (0, true)
  | String c rest =>
      let body := if is_sign c then rest else s in
      match body with
      | EmptyString => (0, true)
      | _ =>
          match parse_digits 0 body with
          | None => (0, true)
          | Some n =>
              let v := if Ascii.eqb c "-"%char then - n else n in
              if (v <? minInt)%Z then (minInt, true)
              else if (maxInt <? v)%Z then (maxInt, true)
              else (v, false)
          end
      end
  end.

(** [fmt.Sprintf("%d", n)]. *)
Definition FormatInt (n : Z) : string := NilEmpty.string_of_int (Z.to_int n).

(** [strings.Contains(s, substr)]. *)
Fixpoint Contains (s substr : string) : bool :=
  if String.prefix substr s then true
  else match s with
       | EmptyString => false
       | String _ s' => Contains s' substr
       end.

(** Every byte of a string that [parse_digits] accepts is a digit. *)
Fixpoint all_digits (s : string) : bool :=
  match s with
  | EmptyString => true
  | String c s' => is_digit c && all_digits s'
  end.

End GoStrings.

(* ===================================================================== *)
(** * The client: forward-address derivation and configuration profiles  *)
(* ===================================================================== *)

Module Client.

Import GoStrings.
Local Open Scope string_scope.

(** [fmt.Sprintf("http://localhost:%d", port)]. *)
Definition localhost (port : Z) : string :=
  "http://localhost:" ++ FormatInt port.

(** pgrok/cli/init.go, [deriveHTTPForwardAddress].  [addr[1:]] is the
    string without its first byte; it is only reached for a non-empty
    [addr], so the slice is in range. *)
Definition deriveHTTPForwardAddress (addr : string) : string :=
  match addr with
  | EmptyString => ""
  | String _ addr1 =>
      (* Check if it's just a port number *)
      match Atoi addr with
      | Some port => localhost port
      | None =>
          (* Check if it's omitting the hostname *)
          match Atoi addr1 with
          | Some port => localhost port
          | None =>
              (* Check if it's omitting the scheme *)
              if negb (Contains addr "://") then "http://" ++ addr
              else addr
          end
      end
  end.

(** An address that [deriveHTTPForwardAddress] leaves as it is. *)
Definition fixed_point (s : string) : Prop := deriveHTTPForwardAddress s = s.

(** ** Profiles (the client's configuration file, package [main]) *)

Record Profile := mkProfile {
  RemoteAddr : string;
  ForwardAddr : string;
  Token : string;
  DynamicForwards : string
}.

(** [Config] embeds the default [Profile] and carries
    [Profiles map[string]*Profile].  A map value is a pointer: [None] is
    the nil pointer, which [yaml.Unmarshal] stores for an entry whose value
    is null.  A nil map reads like the empty map, and [ApplyProfile] only
    reads [Profiles]. *)
Record Config := mkConfig {
  Default : Profile;
  Profiles : gmap string (option Profile)
}.

Inductive profile_error := ErrProfileNotFound (name : string).

(** How a call ends: it returns, or the goroutine panics. *)
Inductive outcome (A : Type) :=
| Returned (a : A)
| Panicked.
Arguments Returned {A} a.
Arguments Panicked {A}.

Definition override (profileValue current : string) : string :=
  if String.eqb profileValue "" then current else profileValue.

(** [func (c *Config) ApplyProfile(name string) error]: the configuration
    after the call, and the error returned ([None] is [nil]).  The first
    field read through a nil [*Profile] panics, before any assignment. *)
Definition ApplyProfile (c : Config) (name : string)
  : outcome (Config * option profile_error) :=
  if String.eqb name "" then Returned (c, None)
  else
    match Profiles c !! name with
    | None => Returned (c, Some (ErrProfileNotFound name))
    | Some None => Panicked
    | Some (Some profile) =>
        let d := Default c in
        Returned
          ({| Default :=
                {| RemoteAddr := override (RemoteAddr profile) (RemoteAddr d);
                   ForwardAddr := override (ForwardAddr profile) (ForwardAddr d);
                   Token := override (Token profile) (Token d);
                   DynamicForwards :=
                     override (DynamicForwards profile) (DynamicForwards d) |};
              Profiles := Profiles c |}, None)
    end.

End Client.

(* ===================================================================== *)
(** * The tunnel store (internal/database)                               *)
(* ===================================================================== *)

Module Database.

Local Open Scope string_scope.

(** [time.Time], as an instant on the store's clock. *)
Definition Time := Z.

(** [type Tunnel struct], one row of the table [tunnels].  The gorm tags
    declare [ID] the primary key and [Token], [Subdomain] unique. *)
Record Tunnel := mkTunnel {
  ID : Z;
  PrincipalID : Z;
  Name : string;
  Token : string;
  Subdomain : string;
  LastTCPPort : Z;
  CreatedAt : Time;
  UpdatedAt : Time
}.

(** [var t Tunnel]: the zero value, which the getters return next to an
    error. *)
Definition zeroTunnel : Tunnel := mkTunnel 0 0 "" "" "" 0 0 0.

Record CreateTunnelOptions := mkCreateTunnelOptions {
  optPrincipalID : Z;
  optName : string;
  optToken : string;
  optSubdomain : string
}.

(** The errors the queries return.  [PgError code] is a
    [*pgconn.PgError] with that SQLSTATE. *)
Inductive error :=
| ErrRecordNotFound
| ErrSubdomainTaken
| PgError (code : string).

Definition unique_violation : string := "23505".

(** The table and its primary-key sequence. *)
Record DB := mkDB {
  tunnels : list Tunnel;
  tunnels_id_seq : Z
}.

Definition empty : DB := mkDB [] 1.

(** ** Query building blocks *)

(** [First]: [ORDER BY id LIMIT 1] over the rows that match. *)
Definition first_by_id (rows : list Tunnel) : option Tunnel :=
  fold_right
    (fun t acc =>
       match acc with
       | None => Some t
       | Some u => if (ID t <=? ID u)%Z then Some t else Some u
       end)
    None rows.

Definition First (where_ : Tunnel -> bool) (db : DB) : Tunnel * option error :=
  match first_by_id (List.filter where_ (tunnels db)) with
  | Some t => (t, None)
  | None => (zeroTunnel, Some ErrRecordNotFound)
  end.

(** [Model(&Tunnel{}).Where(...).Update(column, value)]: the rows that
    match get the column set, and gorm stamps their [UpdatedAt]. *)
Definition update_rows (where_ : Tunnel -> bool) (set : Tunnel -> Tunnel)
           (now : Time) (rows : list Tunnel) : list Tunnel :=
  map (fun t =>
         if where_ t then
           let t' := set t in
           mkTunnel (ID t') (PrincipalID t') (Name t') (Token t')
                    (Subdomain t') (LastTCPPort t') (CreatedAt t') now
         else t)
      rows.

Definition id_is (id : Z) (t : Tunnel) : bool := (ID t =? id)%Z.
Definition token_is (token : string) (t : Tunnel) : bool :=
  String.eqb (Token t) token.
Definition subdomain_is (subdomain : string) (t : Tunnel) : bool :=
  String.eqb (Subdomain t) subdomain.

Definition set_last_tcp_port (port : Z) (t : Tunnel) : Tunnel :=
  mkTunnel (ID t) (PrincipalID t) (Name t) (Token t) (Subdomain t)
           port (CreatedAt t) (UpdatedAt t).

Definition set_subdomain (subdomain : string) (t : Tunnel) : Tunnel :=
  mkTunnel (ID t) (PrincipalID t) (Name t) (Token t) subdomain
           (LastTCPPort t) (CreatedAt t) (UpdatedAt t).

(** ** The queries of tunnels.go *)

(** [CreateTunnel]: the row gets the next value of the sequence (which
    advances even when the insert fails); a row with the same primary key,
    token or subdomain makes the insert fail with SQLSTATE 23505. *)
Definition CreateTunnel (db : DB) (opts : CreateTunnelOptions) (now : Time)
  : DB * (Tunnel * option error) :=
  let id := tunnels_id_seq db in
  let t := mkTunnel id (optPrincipalID opts) (optName opts) (optToken opts)
                    (optSubdomain opts) 0 now now in
  if existsb (fun u => id_is id u || token_is (optToken opts) u
                       || subdomain_is (optSubdomain opts) u) (tunnels db)
  then (mkDB (tunnels db) (id + 1),
        (mkTunnel 0 (optPrincipalID opts) (optName opts) (optToken opts)
                  (optSubdomain opts) 0 now now,
         Some (PgError unique_violation)))
  else (mkDB (tunnels db ++ [t]) (id + 1), (t, None)).

Definition GetTunnelByID (db : DB) (id : Z) : Tunnel * option error :=
  First (id_is id) db.

Definition GetTunnelByToken (db : DB) (token : string) : Tunnel * option error :=
  First (token_is token) db.

Definition GetTunnelsByPrincipalID (db : DB) (principalID : Z)
  : list Tunnel * option error :=
  (List.filter (fun t => (PrincipalID t =? principalID)%Z) (tunnels db), None).

Definition UpdateTunnelLastTCPPort (db : DB) (id : Z) (port : Z) (now : Time)
  : DB * option error :=
  (mkDB (update_rows (id_is id) (set_last_tcp_port port) now (tunnels db))
        (tunnels_id_seq db),
   None).

(** The unique index on [subdomain] rejects the update when a row is
    updated while another row already carries the value. *)
Definition subdomain_taken (db : DB) (id : Z) (subdomain : string) : bool :=
  existsb (id_is id) (tunnels db)
  && existsb (fun u => negb (id_is id u) && subdomain_is subdomain u)
             (tunnels db).

(** [UpdateTunnelSubdomain]: the [PgError] with code 23505 is turned into
    [ErrSubdomainTaken]; a failed statement changes nothing. *)
Definition UpdateTunnelSubdomain (db : DB) (id : Z) (subdomain : string)
           (now : Time) : DB * option error :=
  let err :=
    if subdomain_taken db id subdomain
    then Some (PgError unique_violation) else None in
  match err with
  | Some e =>
      match e with
      | PgError code =>
          if String.eqb code "23505" then (db, Some ErrSubdomainTaken)
          else (db, Some e)
      | _ => (db, Some e)
      end
  | None =>
      (mkDB (update_rows (id_is id) (set_subdomain subdomain) now (tunnels db))
            (tunnels_id_seq db),
       None)
  end.

(** [DeleteTunnelByID]: [DELETE ... WHERE id = ? AND principal_id = ?]. *)
Definition DeleteTunnelByID (db : DB) (id principalID : Z) : DB * option error :=
  (mkDB (List.filter (fun t => negb (id_is id t && (PrincipalID t =? principalID)%Z))
                     (tunnels db))
        (tunnels_id_seq db),
   None).

(** ** The store over time *)

(** The statements that write to the table. *)
Inductive statement :=
| SCreate (opts : CreateTunnelOptions) (now : Time)
| SUpdateLastTCPPort (id port : Z) (now : Time)
| SUpdateSubdomain (id : Z) (subdomain : string) (now : Time)
| SDelete (id principalID : Z).

Definition exec (db : DB) (s : statement) : DB :=
  match s with
  | SCreate opts now => fst (CreateTunnel db opts now)
  | SUpdateLastTCPPort id port now => fst (UpdateTunnelLastTCPPort db id port now)
  | SUpdateSubdomain id subdomain now => fst (UpdateTunnelSubdomain db id subdomain now)
  | SDelete id principalID => fst (DeleteTunnelByID db id principalID)
  end.

(** A store is reachable when statements lead to it from the empty
    table. *)
Inductive reachable_store : DB -> Prop :=
| store_empty : reachable_store empty
| store_exec db s : reachable_store db -> reachable_store (exec db s).

(** What the constraints of the table promise. *)
Record constraints (db : DB) : Prop := {
  pk_unique : List.NoDup (map ID (tunnels db));
  token_unique : List.NoDup (map Token (tunnels db));
  subdomain_unique : List.NoDup (map Subdomain (tunnels db))
}.

End Database.

(* ===================================================================== *)
(** * The management handlers (pgrokd/cli/web_server.go)                 *)
(* ===================================================================== *)

Module Principals.

(** [type Principal struct] (internal/database/principals.go). *)
Record Principal := mkPrincipal {
  ID : Z;
  Identifier : string;
  DisplayName : string;
  CreatedAt : Database.Time;
  UpdatedAt : Database.Time
}.

End Principals.

Module WebServer.

Import GoStrings Database.
Local Open Scope string_scope.

Definition StatusOK : Z := 200.
Definition StatusBadRequest : Z := 400.
Definition StatusForbidden : Z := 403.
Definition StatusNotFound : Z := 404.
Definition StatusConflict : Z := 409.
Definition StatusInternalServerError : Z := 500.

(** What a handler writes: [r.PlainText(status, body)] or
    [r.JSON(status, fields)]. *)
Inductive response :=
| PlainText (status : Z) (body : string)
| JSON (status : Z) (fields : list (string * string)).

Definition error_text (e : Database.error) : string :=
  match e with
  | ErrRecordNotFound => "record not found"
  | ErrSubdomainTaken => "subdomain already taken"
  | PgError code => "SQLSTATE " ++ code
  end.

Section Handlers.

(** [userutil.NormalizeIdentifier], of a package outside this
    development: the normalized identifier, or the text of its error. *)
Variable NormalizeIdentifier : string -> string + string.

(** [config.Proxy.Scheme] and [config.Proxy.Domain]. *)
Variables proxyScheme proxyDomain : string.

(** [f.Delete("/tunnels/{id}", ...)]: [idParam] is [c.Param("id")],
    [principle] the authenticated principal. *)
Definition deleteTunnel (db : DB) (principle : Principals.Principal)
           (idParam : string) : DB * response :=
  let id := fst (ParseInt idParam) in
  if (id <=? 0)%Z then (db, PlainText StatusBadRequest "Invalid tunnel ID")
  else
    let '(db', err) := DeleteTunnelByID db id (Principals.ID principle) in
    match err with
    | Some e =>
        (db', PlainText StatusInternalServerError
                        ("Failed to delete tunnel: " ++ error_text e))
    | None => (db', PlainText StatusOK "OK")
    end.

(** [f.Patch("/tunnels/{id}", ...)]: [form] is what decoding the JSON
    body gives, [None] when it fails, else the [subdomain] field. *)
Definition patchTunnel (db : DB) (principle : Principals.Principal)
           (idParam : string) (form : option string) (now : Time)
  : DB * response :=
  let id := fst (ParseInt idParam) in
  if (id <=? 0)%Z then (db, PlainText StatusBadRequest "Invalid tunnel ID")
  else
    match form with
    | None => (db, PlainText StatusBadRequest "Invalid request body")
    | Some formSubdomain =>
        match NormalizeIdentifier formSubdomain with
        | inr e => (db, PlainText StatusBadRequest ("Invalid subdomain: " ++ e))
        | inl subdomain =>
            (* Security check: ensure tunnel belongs to user *)
            let '(t, err) := GetTunnelByID db id in
            match err with
            | Some _ => (db, PlainText StatusNotFound "Tunnel not found")
            | None =>
                if negb (PrincipalID t =? Principals.ID principle)%Z
                then (db, PlainText StatusForbidden "Access denied")
                else
                  let '(db', err) := UpdateTunnelSubdomain db id subdomain now in
                  match err with
                  | Some ErrSubdomainTaken =>
                      (db', PlainText StatusConflict "Subdomain is already taken")
                  | Some e =>
                      (db', PlainText StatusInternalServerError
                                      ("Failed to update subdomain: " ++ error_text e))
                  | None =>
                      (db', JSON StatusOK
                                 [("subdomain", subdomain);
                                  ("url", proxyScheme ++ "://" ++ subdomain
                                          ++ "." ++ proxyDomain)])
                  end
            end
        end
    end.

End Handlers.

End WebServer.

(* ===================================================================== *)
(** * The reverse-tunnel broker                                          *)
(* ===================================================================== *)

(** The registry, the sessions, the handshake, the frame protocol, the
    dispatcher and the teardown are not among the source files at hand; this
    module follows sections 3 to 5 of the specification.  The broker handles
    one event at a time; an event is a sequence of atomic updates of the
    registry and of the session table, and every state in between is an
    instant an observer can see. *)

Module Broker.

Import Database.

(** Modelled from the spec: a public name, the key of a Registry entry,
    is a normalized subdomain or a TCP port (section 3). *)
Inductive Name :=
| SubdomainName (s : string)
| PortName (p : Z).

#[global] Instance Name_eq_dec : EqDecision Name.
Proof. solve_decision. Defined.

#[global] Instance Name_countable : Countable Name :=
  inj_countable'
    (fun n => match n with SubdomainName s => inl s | PortName p => inr p end)
    (fun x => match x with inl s => SubdomainName s | inr p => PortName p end)
    (fun n => match n with SubdomainName _ | PortName _ => eq_refl end).

Definition SessionID := nat.
Definition StreamID := nat.

(** Modelled from the spec: the states of a Session,
    [Connecting -> Authenticated -> Active -> Draining -> Closed]
    (section 3). *)
Inductive SessionState :=
| Connecting | Authenticated | Active | Draining | Closed.

#[global] Instance SessionState_eq_dec : EqDecision SessionState.
Proof. solve_decision. Defined.

(** The two ends of a Stream: the tunnel client and the public peer. *)
Inductive Side := ClientSide | PublicSide.

#[global] Instance Side_eq_dec : EqDecision Side.
Proof. solve_decision. Defined.

(** Modelled from the spec: a Stream is open, half-closed (by the side
    that signalled end-of-stream first) or closed (sections 3 and
    4.3). *)
Inductive StreamState :=
| StreamOpen
| StreamHalfClosed (closer : Side)
| StreamClosed.

(** Modelled from the spec: a Stream, with the bytes relayed so far in
    each direction (their lengths are the byte counters of section 3). *)
Record Stream := mkStream {
  stream_state : StreamState;
  to_public : list Byte.byte;
  to_client : list Byte.byte
}.

(** Modelled from the spec: a Session (section 3): its identity (token,
    resolved name, forward targets), its state, the table of its Streams
    keyed by stream id, the last heartbeat and the transport handle. *)
Record Session := mkSession {
  sess_token : string;
  sess_name : Name;
  sess_forwards : list string;
  sess_state : SessionState;
  sess_streams : gmap StreamID Stream;
  sess_next_stream : StreamID;
  sess_last_heartbeat : Time;
  sess_transport_open : bool
}.

(** Modelled from the spec: the frames of the multiplexing protocol
    (section 4.3). *)
Inductive Frame :=
| OpenStream (id : StreamID) (targetHint : string)
| Data (id : StreamID) (payload : list Byte.byte)
| Close (id : StreamID)
| Heartbeat.

Inductive RejectReason := AuthError | BindConflict.

Inductive LogEntry :=
| LogDroppedFrame (sid : SessionID) (frame : Frame)
| LogMalformedFrame (sid : SessionID)
| LogRejected (token : string) (reason : RejectReason).

(** Modelled from the spec: the state of the broker: the Registry
    ([name -> Session], sessions being handles into the session table,
    section 9), the session table, the frames written to the clients'
    transports, and the log. *)
Record Broker := mkBroker {
  registry : gmap Name SessionID;
  sessions : gmap SessionID Session;
  next_session : SessionID;
  sent : list (SessionID * Frame);
  log : list LogEntry
}.

Definition init : Broker := mkBroker ∅ ∅ 0%nat [] [].

(** ** The Registry (section 4.1) *)

Inductive RegistryResult := RegOk | RegConflict | RegNotFound.

(** Modelled from the spec: [bind(name, session) -> ok | Conflict]; a name
    that has a holder is not given away by [bind] (the reconnect rule of
    section 4.2 then decides between [replace] and rejection). *)
Definition bind (name : Name) (sid : SessionID) (reg : gmap Name SessionID)
  : gmap Name SessionID * RegistryResult :=
  match reg !! name with
  | Some _ => (reg, RegConflict)
  | None => (<[name := sid]> reg, RegOk)
  end.

(** Modelled from the spec:
    [replace(name, oldSessionID, newSession) -> ok | NotFound]. *)
Definition replace (name : Name) (old new : SessionID)
           (reg : gmap Name SessionID) : gmap Name SessionID * RegistryResult :=
  match reg !! name with
  | Some holder =>
      if decide (holder = old) then (<[name := new]> reg, RegOk)
      else (reg, RegNotFound)
  | None => (reg, RegNotFound)
  end.

(** Modelled from the spec: [lookup(name) -> Session | Absent]. *)
Definition lookup (name : Name) (reg : gmap Name SessionID) : option SessionID :=
  reg !! name.

(** Modelled from the spec: [remove(name, sessionID) -> ok | NotFound], a
    no-op if the current holder differs. *)
Definition remove (name : Name) (sid : SessionID) (reg : gmap Name SessionID)
  : gmap Name SessionID * RegistryResult :=
  match reg !! name with
  | Some holder =>
      if decide (holder = sid) then (delete name reg, RegOk)
      else (reg, RegNotFound)
  | None => (reg, RegNotFound)
  end.

(** ** Atomic updates *)

Definition with_registry (f : gmap Name SessionID -> gmap Name SessionID)
           (b : Broker) : Broker :=
  mkBroker (f (registry b)) (sessions b) (next_session b) (sent b) (log b).

Definition with_session (sid : SessionID) (f : Session -> Session)
           (b : Broker) : Broker :=
  mkBroker (registry b) (alter f sid (sessions b)) (next_session b)
           (sent b) (log b).

Definition registry_bind (name : Name) (sid : SessionID) : Broker -> Broker :=
  with_registry (fun reg => fst (bind name sid reg)).

Definition registry_replace (name : Name) (old new : SessionID)
  : Broker -> Broker :=
  with_registry (fun reg => fst (replace name old new reg)).

Definition registry_remove (name : Name) (sid : SessionID) : Broker -> Broker :=
  with_registry (fun reg => fst (remove name sid reg)).

(** The Session of a new connection enters the table under a fresh
    handle. *)
Definition add_session (s : Session) (b : Broker) : Broker :=
  mkBroker (registry b) (<[next_session b := s]> (sessions b))
           (S (next_session b)) (sent b) (log b).

Definition set_state (st : SessionState) (s : Session) : Session :=
  mkSession (sess_token s) (sess_name s) (sess_forwards s) st
            (sess_streams s) (sess_next_stream s) (sess_last_heartbeat s)
            (sess_transport_open s).

Definition set_streams (f : gmap StreamID Stream -> gmap StreamID Stream)
           (s : Session) : Session :=
  mkSession (sess_token s) (sess_name s) (sess_forwards s) (sess_state s)
            (f (sess_streams s)) (sess_next_stream s) (sess_last_heartbeat s)
            (sess_transport_open s).

Definition set_heartbeat (now : Time) (s : Session) : Session :=
  mkSession (sess_token s) (sess_name s) (sess_forwards s) (sess_state s)
            (sess_streams s) (sess_next_stream s) now (sess_transport_open s).

Definition close_transport (s : Session) : Session :=
  mkSession (sess_token s) (sess_name s) (sess_forwards s) (sess_state s)
            (sess_streams s) (sess_next_stream s) (sess_last_heartbeat s) false.

Definition new_stream (s : Session) : Session :=
  mkSession (sess_token s) (sess_name s) (sess_forwards s) (sess_state s)
            (<[sess_next_stream s := mkStream StreamOpen [] []]> (sess_streams s))
            (S (sess_next_stream s)) (sess_last_heartbeat s)
            (sess_transport_open s).

Definition close_stream (st : Stream) : Stream :=
  mkStream StreamClosed (to_public st) (to_client st).

(** End-of-stream from one side: a half-close first, the full close when
    the other side has closed as well. *)
Definition close_from (side : Side) (st : Stream) : Stream :=
  match stream_state st with
  | StreamOpen => mkStream (StreamHalfClosed side) (to_public st) (to_client st)
  | StreamHalfClosed closer =>
      if decide (closer = side) then st else close_stream st
  | StreamClosed => st
  end.

(** The payload of a [Data] frame goes to the far end of the stream. *)
Definition relay_from (side : Side) (payload : list Byte.byte) (st : Stream)
  : Stream :=
  match side with
  | ClientSide => mkStream (stream_state st) (to_public st ++ payload) (to_client st)
  | PublicSide => mkStream (stream_state st) (to_public st) (to_client st ++ payload)
  end.

Definition mark (sid : SessionID) (st : SessionState) : Broker -> Broker :=
  with_session sid (set_state st).

Definition close_streams (sid : SessionID) : Broker -> Broker :=
  with_session sid (set_streams (fmap close_stream)).

Definition release_transport (sid : SessionID) : Broker -> Broker :=
  with_session sid close_transport.

Definition touch (sid : SessionID) (now : Time) : Broker -> Broker :=
  with_session sid (set_heartbeat now).

Definition on_stream (sid : SessionID) (id : StreamID) (f : Stream -> Stream)
  : Broker -> Broker :=
  with_session sid (set_streams (alter f id)).

Definition open_stream (sid : SessionID) : Broker -> Broker :=
  with_session sid new_stream.

Definition send (sid : SessionID) (frame : Frame) (b : Broker) : Broker :=
  mkBroker (registry b) (sessions b) (next_session b)
           (sent b ++ [(sid, frame)]) (log b).

Definition write_log (entry : LogEntry) (b : Broker) : Broker :=
  mkBroker (registry b) (sessions b) (next_session b) (sent b)
           (log b ++ [entry]).


Definition run (b : Broker) (prog : list (Broker -> Broker)) : Broker :=
  fold_left (fun b f => f b) prog b.

(** ** Teardown (section 4.5) *)

(** Modelled from the spec: teardown marks the Session [Draining], closes
    every open Stream, removes the Registry entry (only if this Session is
    still the holder), moves to [Closed] and releases the transport. *)
Definition teardown_prog (sid : SessionID) (name : Name)
  : list (Broker -> Broker) :=
  [ mark sid Draining;
    close_streams sid;
    registry_remove name sid;
    mark sid Closed;
    release_transport sid ].

Definition live (s : Session) : bool :=
  match sess_state s with
  | Draining | Closed => false
  | _ => true
  end.

(** Teardown of a Session that is there and not already torn down. *)
Definition teardown (b : Broker) (sid : SessionID) : list (Broker -> Broker) :=
  match sessions b !! sid with
  | Some s => if live s then teardown_prog sid (sess_name s) else []
  | None => []
  end.

(** ** The handshake (section 4.2) *)

(** What the client asks to expose: its HTTP service under the tunnel's
    subdomain, or a TCP service under a port ([ephemeral] is the fresh port
    the listener would allocate). *)
Inductive Protocol := HTTP | TCP (ephemeral : Z).

Record Request := mkRequest {
  req_token : string;
  req_protocol : Protocol;
  req_forwards : list string
}.

Inductive HandshakeResult :=
| Accepted (sid : SessionID)
| Rejected (reason : RejectReason).

(** Modelled from the spec: step 3, the binding name: the subdomain of the
    record, or a TCP port, reusing [LastTCPPort] if present, else
    allocating a fresh ephemeral port and persisting it to the store. *)
Definition derive_name (db : DB) (t : Tunnel) (protocol : Protocol) (now : Time)
  : Name * DB :=
  match protocol with
  | HTTP => (SubdomainName (Subdomain t), db)
  | TCP ephemeral =>
      if (LastTCPPort t =? 0)%Z
      then (PortName ephemeral,
            fst (UpdateTunnelLastTCPPort db (ID t) ephemeral now))
      else (PortName (LastTCPPort t), db)
  end.

(** The holder of a name, with its Session. *)
Definition holder_of (b : Broker) (name : Name) : option (SessionID * Session) :=
  match lookup name (registry b) with
  | Some old =>
      match sessions b !! old with
      | Some o => Some (old, o)
      | None => None
      end
  | None => None
  end.

(** The Session of a connection whose token is resolved: [Authenticated],
    no stream yet. *)
Definition new_session (req : Request) (name : Name) (now : Time) : Session :=
  mkSession (req_token req) name (req_forwards req) Authenticated ∅ 0%nat now true.

(** Modelled from the spec: steps 4 and 5 when [bind] succeeds: the Session
    is bound and becomes [Active]. *)
Definition accept_prog (b : Broker) (req : Request) (name : Name) (now : Time)
  : list (Broker -> Broker) :=
  [add_session (new_session req name now);
   registry_bind name (next_session b);
   mark (next_session b) Active].

(** Modelled from the spec: the reconnect: [replace] the stale Session
    [old] atomically, then tear it down ([Draining], streams closed, ...),
    then step 5. *)
Definition reconnect_prog (b : Broker) (req : Request) (name : Name)
           (old : SessionID) (now : Time) : list (Broker -> Broker) :=
  [add_session (new_session req name now);
   registry_replace name old (next_session b)]
    ++ teardown_prog old name ++ [mark (next_session b) Active].

Definition reject_prog (req : Request) (reason : RejectReason)
  : list (Broker -> Broker) :=
  [write_log (LogRejected (req_token req) reason)].

(** Modelled from the spec: the handshake.  The token is resolved in the
    store ([AuthError] and no Session if it is not); the name is derived;
    [bind] is attempted; on [Conflict] with a holder of the same token the
    stale Session is replaced and then torn down, with a holder of another
    token the connection is rejected with [BindConflict]; on success the
    Session becomes [Active].  The result is the list of atomic updates,
    the store, and the answer to the client. *)
Definition handshake (b : Broker) (db : DB) (req : Request) (now : Time)
  : list (Broker -> Broker) * DB * HandshakeResult :=
  let '(t, err) := GetTunnelByToken db (req_token req) in
  match err with
  | Some _ => (reject_prog req AuthError, db, Rejected AuthError)
  | None =>
      let '(name, db') := derive_name db t (req_protocol req) now in
      match snd (bind name (next_session b) (registry b)) with
      | RegOk => (accept_prog b req name now, db', Accepted (next_session b))
      | _ =>
          match holder_of b name with
          | Some (old, o) =>
              if String.eqb (sess_token o) (req_token req)
              then (reconnect_prog b req name old now, db',
                    Accepted (next_session b))
              else (reject_prog req BindConflict, db', Rejected BindConflict)
          | None => (reject_prog req BindConflict, db', Rejected BindConflict)
          end
      end
  end.

(** ** Frames arriving from a client (section 4.3) *)

(** A side may still write to a stream it has not closed. *)
Definition accepts (side : Side) (st : Stream) : bool :=
  match stream_state st with
  | StreamOpen => true
  | StreamHalfClosed closer => negb (bool_decide (closer = side))
  | StreamClosed => false
  end.

(** Modelled from the spec: one frame read from the transport of an
    [Active] Session; [None] is a frame whose header does not parse.
    [Data] and [Close] act on a stream the client may write to; a frame for
    a closed or unknown stream id is dropped and logged ([OpenStream] is
    broker-initiated and is dropped as well); [Heartbeat] refreshes the
    liveness timestamp; a malformed frame is fatal and starts teardown. *)
Definition on_frame (b : Broker) (sid : SessionID) (raw : option Frame)
           (now : Time) : list (Broker -> Broker) :=
  match sessions b !! sid with
  | Some s =>
      if decide (sess_state s = Active) then
        match raw with
        | None => write_log (LogMalformedFrame sid) :: teardown_prog sid (sess_name s)
        | Some Heartbeat => [touch sid now]
        | Some (Data id payload) =>
            match sess_streams s !! id with
            | Some st =>
                if accepts ClientSide st
                then [on_stream sid id (relay_from ClientSide payload)]
                else [write_log (LogDroppedFrame sid (Data id payload))]
            | None => [write_log (LogDroppedFrame sid (Data id payload))]
            end
        | Some (Close id) =>
            match sess_streams s !! id with
            | Some st =>
                if accepts ClientSide st
                then [on_stream sid id (close_from ClientSide)]
                else [write_log (LogDroppedFrame sid (Close id))]
            | None => [write_log (LogDroppedFrame sid (Close id))]
            end
        | Some (OpenStream id hint) =>
            [write_log (LogDroppedFrame sid (OpenStream id hint))]
        end
      else []
  | None => []
  end.

(** ** The public dispatcher (section 4.4) *)

Inductive DispatchResult :=
| Opened (sid : SessionID) (id : StreamID)
| Relayed
| DispatchMiss
| StreamClosedError.

(** Modelled from the spec: an inbound public connection for [name]:
    [lookup], then [OpenStream] to the Session with a fresh stream id. *)
Definition public_connect (b : Broker) (name : Name) (hint : string)
  : list (Broker -> Broker) * DispatchResult :=
  match lookup name (registry b) with
  | None => ([], DispatchMiss)
  | Some sid =>
      match sessions b !! sid with
      | Some s =>
          if decide (sess_state s = Active)
          then ([open_stream sid; send sid (OpenStream (sess_next_stream s) hint)],
                Opened sid (sess_next_stream s))
          else ([], StreamClosedError)
      | None => ([], DispatchMiss)
      end
  end.

Definition stream_of (b : Broker) (sid : SessionID) (id : StreamID)
  : option Stream :=
  match sessions b !! sid with
  | Some s => sess_streams s !! id
  | None => None
  end.

(** Modelled from the spec: bytes read from a public connection are
    relayed as [Data] frames of its stream. *)
Definition public_data (b : Broker) (sid : SessionID) (id : StreamID)
           (payload : list Byte.byte) : list (Broker -> Broker) * DispatchResult :=
  match stream_of b sid id with
  | Some st =>
      if accepts PublicSide st
      then ([on_stream sid id (relay_from PublicSide payload);
             send sid (Data id payload)], Relayed)
      else ([], StreamClosedError)
  | None => ([], StreamClosedError)
  end.

(** Modelled from the spec: the public peer ends its side of a stream. *)
Definition public_close (b : Broker) (sid : SessionID) (id : StreamID)
  : list (Broker -> Broker) * DispatchResult :=
  match stream_of b sid id with
  | Some st =>
      if accepts PublicSide st
      then ([on_stream sid id (close_from PublicSide); send sid (Close id)],
            Relayed)
      else ([], StreamClosedError)
  | None => ([], StreamClosedError)
  end.

(** ** Events *)

(** The heartbeat interval and the multiple of it after which a silent
    Session is considered dead; the spec fixes neither. *)
Class Timing := mkTiming {
  heartbeat_interval : Z;
  timeout_multiple : Z
}.

Section Lifecycle.

Context {timing : Timing}.

(** Modelled from the spec: the heartbeat check of section 4.5. *)
Definition heartbeat_check (b : Broker) (sid : SessionID) (now : Time)
  : list (Broker -> Broker) :=
  match sessions b !! sid with
  | Some s =>
      if decide (sess_state s = Active)
      then if (timeout_multiple * heartbeat_interval
               <? now - sess_last_heartbeat s)%Z
           then teardown_prog sid (sess_name s) else []
      else []
  | None => []
  end.

(** What happens to the broker.  A handshake reads the metadata store as
    it is at that moment. *)
Inductive Event :=
| EvHandshake (db : DB) (req : Request) (now : Time)
| EvFrame (sid : SessionID) (raw : option Frame) (now : Time)
| EvPublicConnect (name : Name) (hint : string)
| EvPublicData (sid : SessionID) (id : StreamID) (payload : list Byte.byte)
| EvPublicClose (sid : SessionID) (id : StreamID)
| EvTransportError (sid : SessionID)
| EvDisconnect (sid : SessionID)
| EvHeartbeatCheck (sid : SessionID) (now : Time).

Definition program (b : Broker) (e : Event) : list (Broker -> Broker) :=
  match e with
  | EvHandshake db req now => fst (fst (handshake b db req now))
  | EvFrame sid raw now => on_frame b sid raw now
  | EvPublicConnect name hint => fst (public_connect b name hint)
  | EvPublicData sid id payload => fst (public_data b sid id payload)
  | EvPublicClose sid id => fst (public_close b sid id)
  | EvTransportError sid => teardown b sid
  | EvDisconnect sid => teardown b sid
  | EvHeartbeatCheck sid now => heartbeat_check b sid now
  end.

Definition step (b : Broker) (e : Event) : Broker := run b (program b e).

(** The states between events. *)
Inductive reachable : Broker -> Prop :=
| reachable_init : reachable init
| reachable_step b e : reachable b -> reachable (step b e).


End Lifecycle.

(** The shapes a handshake takes. *)
Inductive handshake_case (b : Broker) (req : Request) (now : Time)
  : list (Broker -> Broker) -> HandshakeResult -> Prop :=
| case_rejected reason :
    handshake_case b req now (reject_prog req reason) (Rejected reason)
| case_accepted name :
    registry b !! name = None ->
    handshake_case b req now (accept_prog b req name now)
                   (Accepted (next_session b))
| case_reconnect name old o :
    registry b !! name = Some old ->
    sessions b !! old = Some o ->
    sess_token o = req_token req ->
    handshake_case b req now (reconnect_prog b req name old now)
                   (Accepted (next_session b)).

(** The stream id a frame carries. *)
Definition frame_stream_id (frame : Frame) : option StreamID :=
  match frame with
  | OpenStream id _ | Data id _ | Close id => Some id
  | Heartbeat => None
  end.


(** ** What is to hold of the broker *)

(** Session [sid] is [Active] and resolved to [name]. *)
Definition active_holds (b : Broker) (sid : SessionID) (name : Name) : Prop :=
  exists s, sessions b !! sid = Some s /\ sess_state s = Active
            /\ sess_name s = name.


(** Between events, handles are fresh and an [Active] Session is the
    holder of its name. *)
Record invariant (b : Broker) : Prop := {
  ids_fresh : forall sid, is_Some (sessions b !! sid) -> (sid < next_session b)%nat;
  active_is_holder :
    forall sid name, active_holds b sid name -> registry b !! name = Some sid
}.

(** An update that makes no Session [Active] and renames none. *)
Definition quiet (f : Broker -> Broker) : Prop :=
  forall b sid name, active_holds (f b) sid name -> active_holds b sid name.

(** A change of one Session that keeps its name and does not make it
    [Active]. *)
Definition calm (g : Session -> Session) : Prop :=
  forall s, sess_name (g s) = sess_name s
            /\ (sess_state (g s) = Active -> sess_state s = Active).

(** What a Session looks like once torn down. *)
Definition torn_down (s : Session) : Session :=
  close_transport
    (set_state Closed (set_streams (fmap close_stream) (set_state Draining s))).

(** Handles and stream ids in use are below the next one to be given
    out. *)
Definition session_fresh (s : Session) : Prop :=
  forall id, is_Some (sess_streams s !! id) -> (id < sess_next_stream s)%nat.


(** A change of one Session that relays nothing: every stream it has stays,
    with the bytes it had. *)
Definition mild (g : Session -> Session) : Prop :=
  forall s,
    (session_fresh s -> session_fresh (g s))
    /\ (session_fresh s ->
        forall id st, sess_streams s !! id = Some st ->
          exists st', sess_streams (g s) !! id = Some st'
                      /\ to_public st' = to_public st
                      /\ to_client st' = to_client st).



End Broker.

(* ===================================================================== *)
(** * Concrete configurations, stores and brokers                        *)
(* ===================================================================== *)

Module Scenario.

Import Database Broker.
Local Open Scope string_scope.

(** The configuration that [loadConfig] builds from
    [profiles: {dev: null}]. *)
Definition config_with_null_profile : Client.Config :=
  {| Client.Default :=
       Client.mkProfile "example.com:2222" "http://localhost:3000" "t0k3n" "";
     Client.Profiles := {[ "dev" := None ]} |}.

(** The configuration profiles of two clients that present the same token
    and ask for different dynamic forwards. *)
Definition client_profile_a : Client.Profile :=
  Client.mkProfile "example.com:2222" "http://localhost:3000" "t0k3n"
                   "/api>http://localhost:8080".
Definition client_profile_b : Client.Profile :=
  Client.mkProfile "example.com:2222" "http://localhost:3000" "t0k3n" "".

(** A store with the tunnel [alice] of principal 7. *)
Definition store_with_one_tunnel : DB :=
  exec empty (SCreate (mkCreateTunnelOptions 7 "Default" "t0k3n" "alice") 100).

(** Principal 8 creates the tunnel [bob]. *)
Definition store_with_two_tunnels : DB :=
  exec store_with_one_tunnel
       (SCreate (mkCreateTunnelOptions 8 "Second" "s3cr3t" "bob") 110).

(** The first tunnel is renamed to [carol], then the second to [alice]. *)
Definition store_renamed : DB :=
  exec (exec store_with_two_tunnels (SUpdateSubdomain 1 "carol" 120))
       (SUpdateSubdomain 2 "alice" 130).

(** Principal 8, signed in. *)
Definition mallory : Principals.Principal :=
  Principals.mkPrincipal 8 "mallory@example.com" "Mallory" 50 50.

Definition request_alice : Request := mkRequest "t0k3n" HTTP [].
Definition request_other : Request := mkRequest "s3cr3t" HTTP [].

(** Heartbeats every 30 time units, three missed ones are fatal. *)
Definition every_30 : Timing := mkTiming 30 3.

(** The client of [alice] has connected, and a public connection has
    opened stream 0 on its Session, which is Session 0. *)
Definition broker_one_session : Broker :=
  @step every_30 init (EvHandshake store_with_one_tunnel request_alice 1000).

Definition broker_one_stream : Broker :=
  @step every_30 broker_one_session
       (EvPublicConnect (SubdomainName "alice") "").

Definition broker_two_streams : Broker :=
  @step every_30 broker_one_stream
       (EvPublicConnect (SubdomainName "alice") "").

(** The Session of [alice] in that state, and the row of its tunnel. *)
Definition alice_session : Session :=
  default (new_session request_alice (SubdomainName "alice") 0)
          (sessions broker_two_streams !! 0%nat).

Definition alice_tunnel : Tunnel :=
  mkTunnel 1 7 "Default" "t0k3n" "alice" 0 100 100.

Definition bob_tunnel : Tunnel :=
  mkTunnel 2 8 "Second" "s3cr3t" "bob" 0 110 110.



End Scenario.

(* ===================================================================== *)
(** * More of the Go library: suffixes and splitting                     *)
(* ===================================================================== *)

Module GoStringsMore.

Local Open Scope string_scope.

(** [strings.HasSuffix(s, suffix)]: [s] is at least as long as [suffix] and
    its last [len(suffix)] bytes are [suffix], that is, one of the tails of
    [s] is [suffix]. *)
Fixpoint HasSuffix (s suffix : string) : bool :=
  if String.eqb s suffix then true
  else match s with
       | EmptyString => false
       | String _ s' => HasSuffix s' suffix
       end.

(** [strings.Split(s, "@")[0]]: [s] up to its first ["@"], the whole of
    [s] when there is none. *)
Fixpoint before_at (s : string) : string :=
  match s with
  | EmptyString => EmptyString
  | String c s' =>
      if Ascii.eqb c "@"%char then EmptyString else String c (before_at s')
  end.

End GoStringsMore.

(* ===================================================================== *)
(** * The client: [loadConfig] and [actionInit]                          *)
(* ===================================================================== *)

Module ClientInit.

Import GoStrings Client.
Local Open Scope string_scope.

(** [&Profile{}]. *)
Definition zeroProfile : Profile := mkProfile "" "" "" "".

(** [&Config{Profiles: make(map[string]*Profile)}]. *)
Definition freshConfig : Config := mkConfig zeroProfile ∅.

(** What [os.ReadFile(configPath)] gives. *)
Inductive read_result :=
| NotExist
| ReadFailed
| Content (p : string).

Inductive load_error := ErrReadFile | ErrUnmarshal.

Section Load.

(** [yaml.Unmarshal] into a [Config], of gopkg.in/yaml.v3: [None] is its
    error. *)
Variable Unmarshal : string -> option Config.

(** [loadConfig]: a missing file is the fresh configuration, any other read
    error and a file that does not parse are errors.  (A nil [Profiles] map
    is replaced by an empty one, which reads the same.) *)
Definition loadConfig (file : read_result) : Config + load_error :=
  match file with
  | NotExist => inl freshConfig
  | ReadFailed => inr ErrReadFile
  | Content p =>
      match Unmarshal p with
      | None => inr ErrUnmarshal
      | Some config => inl config
      end
  end.

(** [actionInit], up to [config.Save]: the configuration that is written.
    [profileName], [remoteAddr], [forwardAddr] and [token] are what
    [c.String] gives for the four flags.  A configuration that fails to
    load is replaced by a fresh one; a named profile that is missing or nil
    is created empty before its three fields are set. *)
Definition actionInit (file : read_result)
           (profileName remoteAddr forwardAddr token : string) : Config :=
  let config := match loadConfig file with
                | inl config => config
                | inr _ => freshConfig
                end in
  if String.eqb profileName "" then
    (* Update default profile *)
    mkConfig (mkProfile remoteAddr forwardAddr token
                        (DynamicForwards (Default config)))
             (Profiles config)
  else
    (* Update named profile *)
    let profile := match Profiles config !! profileName with
                   | Some (Some p) => p
                   | _ => zeroProfile
                   end in
    mkConfig (Default config)
             (<[profileName :=
                  Some (mkProfile remoteAddr forwardAddr token
                                  (DynamicForwards profile))]>
                (Profiles config)).

End Load.

End ClientInit.

(* ===================================================================== *)
(** * The principals table (internal/database/principals.go)             *)
(* ===================================================================== *)

Module PrincipalStore.

Import Principals.
Local Open Scope string_scope.

Record UpsertPrincipalOptions := mkUpsertPrincipalOptions {
  optIdentifier : string;
  optDisplayName : string
}.

(** The table [principles] and its primary-key sequence.  The gorm tags
    declare [ID] the primary key and [Identifier] unique. *)
Record Table := mkTable {
  principals : list Principal;
  principals_id_seq : Z
}.

Definition no_principals : Table := mkTable [] 1.

(** [var p Principal]. *)
Definition zeroPrincipal : Principal := mkPrincipal 0 "" "" 0 0.

(** [ORDER BY id LIMIT 1]. *)
Definition first_principal (rows : list Principal) : option Principal :=
  fold_right
    (fun p acc =>
       match acc with
       | None => Some p
       | Some q => if (ID p <=? ID q)%Z then Some p else Some q
       end)
    None rows.

Definition identifier_is (identifier : string) (p : Principal) : bool :=
  String.eqb (Identifier p) identifier.

Definition principal_id_is (id : Z) (p : Principal) : bool := (ID p =? id)%Z.

(** [UpsertPrincipal]: [Where("identifier = ?", ...).FirstOrCreate(p)].
    When a row has the identifier, the first such row is read into [p] and
    nothing is written (the display name of the options is not stored);
    otherwise a row is inserted with the options and the next id. *)
Definition UpsertPrincipal (tb : Table) (opts : UpsertPrincipalOptions)
           (now : Database.Time) : Table * (Principal * option Database.error) :=
  match first_principal
          (List.filter (identifier_is (optIdentifier opts)) (principals tb)) with
  | Some found => (tb, (found, None))
  | None =>
      let id := principals_id_seq tb in
      let p := mkPrincipal id (optIdentifier opts) (optDisplayName opts) now now in
      if existsb (principal_id_is id) (principals tb)
      then (mkTable (principals tb) (id + 1),
            (mkPrincipal 0 (optIdentifier opts) (optDisplayName opts) now now,
             Some (Database.PgError Database.unique_violation)))
      else (mkTable (principals tb ++ [p]) (id + 1), (p, None))
  end.

(** [GetPrincipalByID]: [Where("id = ?", id).First(&p)]. *)
Definition GetPrincipalByID (tb : Table) (id : Z)
  : Principal * option Database.error :=
  match first_principal (List.filter (principal_id_is id) (principals tb)) with
  | Some p => (p, None)
  | None => (zeroPrincipal, Some Database.ErrRecordNotFound)
  end.

(** The tables that upserts lead to. *)
Inductive reachable_table : Table -> Prop :=
| table_empty : reachable_table no_principals
| table_upsert tb opts now :
    reachable_table tb -> reachable_table (fst (UpsertPrincipal tb opts now)).

(** Ids are positive and below the sequence, identifiers are unique. *)
Record table_ok (tb : Table) : Prop := {
  ids_in_range :
    forall p, In p (principals tb) -> (0 < ID p < principals_id_seq tb)%Z;
  ids_unique : List.NoDup (map ID (principals tb));
  identifiers_unique : List.NoDup (map Identifier (principals tb))
}.

End PrincipalStore.

(* ===================================================================== *)
(** * Signing in: the user info of the identity provider                 *)
(* ===================================================================== *)

Module OIDC.

Import GoStringsMore.
Local Open Scope string_scope.

(** The fields of [conf.IdentityProvider] that the web server reads. *)
Record FieldMapping := mkFieldMapping {
  fmIdentifier : string;
  fmDisplayName : string;
  fmEmail : string
}.

Record IdentityProvider := mkIdentityProvider {
  idpDisplayName : string;
  idpIssuer : string;
  idpClientID : string;
  idpClientSecret : string;
  idpFieldMapping : FieldMapping;
  idpRequiredDomain : string
}.

(** A value of [map[string]any]: a string, or something else. *)
Inductive any :=
| AnyString (s : string)
| AnyOther.

(** [v, ok := claims[key].(string)], with [v = ""] when [ok] is false. *)
Definition string_claim (claims : gmap string any) (key : string) : string :=
  match claims !! key with
  | Some (AnyString v) => v
  | _ => ""
  end.

Record idpUserInfo := mkUserInfo {
  Identifier : string;
  DisplayName : string
}.

Inductive callback_error :=
| ErrProvider (message : string)
| ErrIdentifierMissing (field : string)
| ErrRequiredDomain (email domain : string).

(** [handleOIDCCallback].  Everything up to [rawUserInfo.Claims(&claims)]
    talks to the identity provider: [fetched] is the outcome of that part,
    its error or the claims.  The rest maps the claims to the user info. *)
Definition handleOIDCCallback (idp : IdentityProvider)
           (fetched : string + gmap string any) : idpUserInfo + callback_error :=
  match fetched with
  | inl message => inr (ErrProvider message)
  | inr claims =>
      let mapping := idpFieldMapping idp in
      let identifier := string_claim claims (fmIdentifier mapping) in
      if String.eqb identifier "" then
        inr (ErrIdentifierMissing (fmIdentifier mapping))
      else
        (* Best effort to map optional fields *)
        let displayName :=
          if negb (String.eqb (fmDisplayName mapping) "")
          then string_claim claims (fmDisplayName mapping) else "" in
        let displayName :=
          if String.eqb displayName "" then identifier else displayName in
        if negb (String.eqb (idpRequiredDomain idp) "") then
          let email := string_claim claims (fmEmail mapping) in
          if negb (HasSuffix email ("@" ++ idpRequiredDomain idp))
          then inr (ErrRequiredDomain email (idpRequiredDomain idp))
          else inl (mkUserInfo identifier displayName)
        else inl (mkUserInfo identifier displayName)
  end.

End OIDC.

(* ===================================================================== *)
(** * The web server: the API behind authentication and the sign-in      *)
(* ===================================================================== *)

Module WebApi.

Import GoStrings GoStringsMore Database WebServer.
Local Open Scope string_scope.

Definition StatusUnauthorized : Z := 401.

(** The two tables the handlers work on. *)
Record Store := mkStore {
  tunnelsDB : DB;
  principalsTable : PrincipalStore.Table
}.

(** The two values the server keeps in a session: ["userID"] (an [int64])
    and ["oidc::nonce"] (a string). *)
Record WebSession := mkWebSession {
  session_userID : option Z;
  session_nonce : option string
}.

(** What a handler answers. *)
Inductive reply :=
| Plain (status : Z) (body : string)
| Fields (status : Z) (fields : list (string * string))
| TunnelList (status : Z) (items : list (Tunnel * string))
| TunnelJSON (status : Z) (t : Tunnel)
| StatusOnly (status : Z)
| Redirect (location : string).

Definition of_response (r : response) : reply :=
  match r with
  | PlainText status body => Plain status body
  | JSON status fields => Fields status fields
  end.

(** The requests of the group ["/api"]; the random characters that
    [POST /tunnels] draws are part of the request. *)
Inductive ApiRequest :=
| GetUserInfo
| GetTunnels
| PostTunnels (randomSuffix token : string)
| DeleteTunnel (idParam : string)
| PatchTunnel (idParam : string) (form : option string).

Section Server.

Variable NormalizeIdentifier : string -> string + string.
Variables proxyScheme proxyDomain : string.

(** The [%q] verb of [fmt] ([strconv.Quote]) and the text of the error of
    [handleOIDCCallback], which only appear in the bodies of answers. *)
Variable quote : string -> string.
Variable callback_error_text : OIDC.callback_error -> string.

Definition tunnelURL (subdomain : string) : string :=
  proxyScheme ++ "://" ++ subdomain ++ "." ++ proxyDomain.

(** [f.Get("/user-info", ...)]. *)
Definition getUserInfo (principle : Principals.Principal) : reply :=
  Fields StatusOK [("displayName", Principals.DisplayName principle)].

(** [f.Get("/tunnels", ...)].  [GetTunnelsByPrincipalID] returns its slice
    variable next to the error of [Find]; the Go compiler orders the call
    before the read of the variable, so the slice returned is the one
    [Find] has filled. *)
Definition getTunnels (db : DB) (principle : Principals.Principal) : reply :=
  let '(tunnels, err) := GetTunnelsByPrincipalID db (Principals.ID principle) in
  match err with
  | Some e =>
      Plain StatusInternalServerError ("Failed to get tunnels: " ++ error_text e)
  | None =>
      TunnelList StatusOK (map (fun t => (t, tunnelURL (Subdomain t))) tunnels)
  end.

(** [f.Post("/tunnels", ...)]: [randomSuffix] is
    [strutil.MustRandomChars(6)] and [token] is
    [cryptoutil.SHA1(strutil.MustRandomChars(10))]. *)
Definition postTunnels (db : DB) (principle : Principals.Principal)
           (randomSuffix token : string) (now : Time) : DB * reply :=
  let subdomain :=
    before_at (Principals.Identifier principle) ++ "-" ++ randomSuffix in
  match NormalizeIdentifier subdomain with
  | inr e => (db, Plain StatusBadRequest ("Invalid subdomain: " ++ e))
  | inl normalizedSubdomain =>
      let '(db', (tunnel, err)) :=
        CreateTunnel db
          (mkCreateTunnelOptions (Principals.ID principle)
                                 ("Tunnel " ++ randomSuffix) token
                                 normalizedSubdomain) now in
      match err with
      | Some e =>
          (db', Plain StatusInternalServerError
                      ("Failed to create tunnel: " ++ error_text e))
      | None => (db', TunnelJSON StatusOK tunnel)
      end
  end.

(** The middleware of the group: the principal of the session, or the
    answer that ends the request. *)
Definition authenticate (tb : PrincipalStore.Table) (s : WebSession)
  : Principals.Principal + reply :=
  match session_userID s with
  | None => inr (StatusOnly StatusUnauthorized)
  | Some userID =>
      if (userID <=? 0)%Z then inr (StatusOnly StatusUnauthorized)
      else
        let '(principle, err) := PrincipalStore.GetPrincipalByID tb userID in
        match err with
        | Some e =>
            inr (Plain StatusInternalServerError
                       ("Failed to get principle: " ++ error_text e))
        | None => inl principle
        end
  end.

(** A request to the group ["/api"]: the middleware, then the handler of
    the route with the principal the middleware has mapped. *)
Definition serveAPI (st : Store) (s : WebSession) (req : ApiRequest) (now : Time)
  : Store * reply :=
  match authenticate (principalsTable st) s with
  | inr answer => (st, answer)
  | inl principle =>
      match req with
      | GetUserInfo => (st, getUserInfo principle)
      | GetTunnels => (st, getTunnels (tunnelsDB st) principle)
      | PostTunnels randomSuffix token =>
          let '(db', answer) :=
            postTunnels (tunnelsDB st) principle randomSuffix token now in
          (mkStore db' (principalsTable st), answer)
      | DeleteTunnel idParam =>
          let '(db', answer) := deleteTunnel (tunnelsDB st) principle idParam in
          (mkStore db' (principalsTable st), of_response answer)
      | PatchTunnel idParam form =>
          let '(db', answer) :=
            patchTunnel NormalizeIdentifier proxyScheme proxyDomain
                        (tunnelsDB st) principle idParam form now in
          (mkStore db' (principalsTable st), of_response answer)
      end
  end.

Definition drop_nonce (s : WebSession) : WebSession :=
  mkWebSession (session_userID s) None.

(** [f.Get("/oidc/callback", ...)].  [configured] tells whether
    [config.IdentityProvider] is set, [state] is the query parameter,
    [userInfo] is what [handleOIDCCallback] returns for this request and
    [token] the random token of a default tunnel.  The deferred
    [s.Delete("oidc::nonce")] runs on every path after the first check. *)
Definition oidcCallback (configured : bool) (st : Store) (s : WebSession)
           (state : string) (userInfo : OIDC.idpUserInfo + OIDC.callback_error)
           (token : string) (now : Time) : Store * WebSession * reply :=
  if negb configured then
    (st, s, Plain StatusBadRequest
              "Sorry but ask your admin to configure an identity provider first")
  else
    let nonce := match session_nonce s with Some n => n | None => "" end in
    if negb (String.eqb nonce state) then
      (st, drop_nonce s,
       Plain StatusBadRequest
             ("mismatched state, want " ++ quote nonce ++ " but got " ++ quote state))
    else
      match userInfo with
      | inr e =>
          (st, drop_nonce s,
           Plain StatusInternalServerError
                 ("Failed to handle callback: " ++ callback_error_text e))
      | inl userInfo =>
          let '(tb', (principle, err)) :=
            PrincipalStore.UpsertPrincipal
              (principalsTable st)
              (PrincipalStore.mkUpsertPrincipalOptions
                 (OIDC.Identifier userInfo) (OIDC.DisplayName userInfo)) now in
          match err with
          | Some e =>
              (mkStore (tunnelsDB st) tb', drop_nonce s,
               Plain StatusInternalServerError
                     ("Failed to upsert principle: " ++ error_text e))
          | None =>
              (* Create a default tunnel if none exists *)
              let '(tunnels, err) :=
                GetTunnelsByPrincipalID (tunnelsDB st) (Principals.ID principle) in
              let signedIn db' :=
                (mkStore db' tb',
                 mkWebSession (Some (Principals.ID principle)) None,
                 Redirect "/") in
              match err with
              | Some e =>
                  (mkStore (tunnelsDB st) tb', drop_nonce s,
                   Plain StatusInternalServerError
                         ("Failed to get tunnels: " ++ error_text e))
              | None =>
                  if (length tunnels =? 0)%nat then
                    match NormalizeIdentifier (OIDC.Identifier userInfo) with
                    | inr e =>
                        (mkStore (tunnelsDB st) tb', drop_nonce s,
                         Plain StatusBadRequest
                               ("Failed to normalize identifier: " ++ e))
                    | inl subdomain =>
                        let '(db', (_, err)) :=
                          CreateTunnel (tunnelsDB st)
                            (mkCreateTunnelOptions (Principals.ID principle)
                                                   "Default" token subdomain) now in
                        match err with
                        | Some e =>
                            (mkStore db' tb', drop_nonce s,
                             Plain StatusInternalServerError
                                   ("Failed to create default tunnel: "
                                      ++ error_text e))
                        | None => signedIn db'
                        end
                    end
                  else signedIn (tunnelsDB st)
              end
          end
      end.

(** [f.Get("/sign-out", ...)]. *)
Definition signOut (s : WebSession) : WebSession * reply :=
  (mkWebSession None (session_nonce s), Redirect "/").

End Server.

End WebApi.

(* ===================================================================== *)
(** * The tunnel store over time                                         *)
(* ===================================================================== *)

Module DatabaseHistory.

Import Database.

(** The columns that make a tunnel what it is. *)
Definition same_tunnel (t t' : Tunnel) : Prop :=
  ID t' = ID t /\ PrincipalID t' = PrincipalID t /\ Name t' = Name t
  /\ Token t' = Token t /\ CreatedAt t' = CreatedAt t.

(** A row after a statement is a row from before, or a new one with an id
    taken from the sequence. *)
Definition descends (db db' : DB) : Prop :=
  (tunnels_id_seq db <= tunnels_id_seq db')%Z /\
  forall t', In t' (tunnels db') ->
    (exists t, In t (tunnels db) /\ same_tunnel t t')
    \/ (tunnels_id_seq db <= ID t' < tunnels_id_seq db')%Z.

(** A tunnel after a rename, and after a port allocation. *)
Definition renamed (t : Tunnel) (subdomain : string) (now : Time) : Tunnel :=
  mkTunnel (ID t) (PrincipalID t) (Name t) (Token t) subdomain
           (LastTCPPort t) (CreatedAt t) now.

Definition with_port (t : Tunnel) (port : Z) (now : Time) : Tunnel :=
  mkTunnel (ID t) (PrincipalID t) (Name t) (Token t) (Subdomain t)
           port (CreatedAt t) now.

End DatabaseHistory.

(* ===================================================================== *)
(** * More concrete cases                                                *)
(* ===================================================================== *)

Module Cases.

Import Database Scenario.
Local Open Scope string_scope.

(** A configuration file with the null profile [dev]. *)
Definition unmarshal_null_profile (p : string) : option Client.Config :=
  Some config_with_null_profile.

Definition alice : Principals.Principal :=
  Principals.mkPrincipal 1 "alice@example.com" "Alice" 90 90.

Definition alice_table : PrincipalStore.Table :=
  fst (PrincipalStore.UpsertPrincipal
         PrincipalStore.no_principals
         (PrincipalStore.mkUpsertPrincipalOptions "alice@example.com" "Alice") 90).

(** Alice has the tunnel [alice]; the store of principal 7 and 8 of the
    scenarios, with the principals table of Alice. *)
Definition alice_store : DB :=
  exec empty (SCreate (mkCreateTunnelOptions 1 "Default" "t0k3n" "alice") 100).

Definition carol_store : DB :=
  exec alice_store (SCreate (mkCreateTunnelOptions 2 "Carol's" "c4r0l" "carol") 110).

Definition alice_site : WebApi.Store := WebApi.mkStore alice_store alice_table.

Definition alice_signed_in : WebApi.WebSession :=
  WebApi.mkWebSession (Some 1) None.

Definition google : OIDC.IdentityProvider :=
  OIDC.mkIdentityProvider "Google" "https://accounts.google.com" "id" "secret"
    (OIDC.mkFieldMapping "email" "name" "email") "example.com".

Definition alice_claims : gmap string OIDC.any :=
  {[ "email" := OIDC.AnyString "alice@example.com";
     "name" := OIDC.AnyString "Alice" ]}.

End Cases.

(* ===================================================================== *)
(** * Facts about the Go library functions                               *)
(* ===================================================================== *)

Module GoStringsFacts.

Import GoStrings.
Local Open Scope string_scope.

Lemma parse_digits_all_digits s : forall n v,
  parse_digits n s = Some v -> all_digits s = true.
Proof.
  induction s as [|c s IH]; intros n v H; simpl in *; [reflexivity|].
  destruct (is_digit c); [|discriminate]. simpl. eauto.
Qed.

Lemma all_digits_parse s : forall n,
  0 <= n -> all_digits s = true ->
  exists v, parse_digits n s = Some v /\ n <= v.
Proof.
  induction s as [|c s IH]; intros n Hn H; simpl in *.
  - exists n. split; [reflexivity|lia].
  - apply andb_prop in H as [Hc Hs]. rewrite Hc.
    assert (0 <= digit_val c) as Hd.
    { unfold is_digit, digit_val in *. apply andb_prop in Hc as [H1 _].
      apply Z.leb_le in H1. lia. }
    destruct (IH (n * 10 + digit_val c) ltac:(lia) Hs) as (v & Hv & Hle).
    exists v. split; [exact Hv|lia].
Qed.

Lemma prefix_scheme_head c s :
  String.prefix "://" (String c s) = true -> c = ":"%char.
Proof.
  cbn [String.prefix]. destruct (ascii_dec ":" c) as [<-|]; [reflexivity|discriminate].
Qed.

Lemma all_digits_no_scheme s : all_digits s = true -> Contains s "://" = false.
Proof.
  induction s as [|c s IH]; intros H; [reflexivity|].
  simpl in H. apply andb_prop in H as [Hc Hs].
  cbn [Contains]. rewrite (IH Hs).
  destruct (String.prefix "://" (String c s)) eqn:Hp; [|reflexivity].
  apply prefix_scheme_head in Hp as ->. discriminate Hc.
Qed.

(** What [Atoi] accepts: digits only, after at most one sign byte. *)
Lemma Atoi_Some_shape s v :
  Atoi s = Some v ->
  exists c rest, s = String c rest /\
    (all_digits s = true \/ (is_sign c = true /\ all_digits rest = true)).
Proof.
  destruct s as [|c rest]; [discriminate|]. intros H. exists c, rest.
  split; [reflexivity|]. unfold Atoi in H.
  destruct (is_sign c) eqn:Hs.
  - right. split; [reflexivity|].
    destruct rest as [|d r]; [discriminate|].
    destruct (parse_digits 0 (String d r)) eqn:Hp; [|discriminate].
    eapply parse_digits_all_digits; eauto.
  - left. destruct (parse_digits 0 (String c rest)) eqn:Hp; [|discriminate].
    eapply parse_digits_all_digits; eauto.
Qed.

Lemma Atoi_Some_no_scheme s v : Atoi s = Some v -> Contains s "://" = false.
Proof.
  intros H. destruct (Atoi_Some_shape _ _ H) as (c & rest & -> & [Hd|[Hs Hd]]).
  - now apply all_digits_no_scheme.
  - cbn [Contains]. rewrite (all_digits_no_scheme _ Hd).
    destruct (String.prefix "://" (String c rest)) eqn:Hp; [|reflexivity].
    apply prefix_scheme_head in Hp as ->. discriminate Hs.
Qed.

End GoStringsFacts.

(* ===================================================================== *)
(** * The client: theorems                                               *)
(* ===================================================================== *)

Module ClientFacts.

Import GoStrings GoStringsFacts Client Scenario.
Local Open Scope string_scope.

(** ** [deriveHTTPForwardAddress] *)

Lemma prefix_empty s : String.prefix "" s = true.
Proof. destruct s; reflexivity. Qed.

Lemma localhost_fixed port : fixed_point (localhost port).
Proof. reflexivity. Qed.

Lemma with_scheme_fixed addr : fixed_point ("http://" ++ addr).
Proof.
  unfold fixed_point.
  change ("http://" ++ addr)
    with (String "h" (String "t" (String "t" (String "p"
           (String ":" (String "/" (String "/" addr))))))).
  unfold deriveHTTPForwardAddress. cbn.
  now rewrite prefix_empty.
Qed.

(** An address that already names a scheme is neither a port nor a
    host-less port, and comes back as it is. *)
Lemma derive_scheme_unchanged addr :
  Contains addr "://" = true -> deriveHTTPForwardAddress addr = addr.
Proof.
  intros Hc. destruct addr as [|c addr1]; [reflexivity|].
  unfold deriveHTTPForwardAddress.
  destruct (Atoi (String c addr1)) as [p|] eqn:H0.
  { apply Atoi_Some_no_scheme in H0. congruence. }
  destruct (Atoi addr1) as [p|] eqn:H1; [exfalso|now rewrite Hc].
  pose proof (Atoi_Some_no_scheme _ _ H1) as Hn.
  cbn [Contains] in Hc. rewrite Hn in Hc.
  destruct (String.prefix "://" (String c addr1)) eqn:Hp; [|discriminate].
  pose proof (prefix_scheme_head _ _ Hp) as ->.
  destruct addr1 as [|d r]; [discriminate|].
  cbn [String.prefix] in Hp.
  destruct (ascii_dec ":" ":"); [|discriminate].
  destruct (ascii_dec "/" d) as [<-|]; [|discriminate].
  destruct (Atoi_Some_shape _ _ H1) as (c' & r' & E & [Hd|[Hs _]]).
  - discriminate Hd.
  - injection E as <- <-. discriminate Hs.
Qed.

(** Whatever comes out of [deriveHTTPForwardAddress] is a fixed point. *)
Lemma derive_result_fixed s : fixed_point (deriveHTTPForwardAddress s).
Proof.
  destruct s as [|c s1]; [reflexivity|].
  unfold deriveHTTPForwardAddress at 1.
  destruct (Atoi (String c s1)); [apply localhost_fixed|].
  destruct (Atoi s1); [apply localhost_fixed|].
  destruct (Contains (String c s1) "://") eqn:Hc; cbn [negb].
  - now apply derive_scheme_unchanged.
  - apply with_scheme_fixed.
Qed.

Lemma Atoi_digits ds n :
  ds <> "" -> parse_digits 0 ds = Some n -> n <= maxInt -> Atoi ds = Some n.
Proof.
  intros Hne Hp Hmax. destruct ds as [|d r]; [congruence|].
  pose proof (parse_digits_all_digits _ _ _ Hp) as Hall.
  destruct (all_digits_parse _ 0 ltac:(lia) Hall) as (v & Hv & Hle).
  assert (v = n) as -> by congruence.
  assert (is_sign d = false) as Hs.
  { simpl in Hall. apply andb_prop in Hall as [Hd _].
    unfold is_sign. destruct (Ascii.eqb_spec d "-") as [->|_]; [discriminate|].
    destruct (Ascii.eqb_spec d "+") as [->|_]; [discriminate|reflexivity]. }
  assert (Ascii.eqb d "-" = false) as Hm.
  { unfold is_sign in Hs. now apply orb_false_elim in Hs as [-> _]. }
  unfold Atoi. rewrite Hs, Hp, Hm.
  replace (minInt <=? n)%Z with true
    by (symmetry; apply Z.leb_le; unfold minInt; lia).
  replace (n <=? maxInt)%Z with true by (symmetry; now apply Z.leb_le).
  reflexivity.
Qed.

Lemma derive_bare_port ds n :
  ds <> "" -> parse_digits 0 ds = Some n -> n <= maxInt ->
  deriveHTTPForwardAddress ds = localhost n.
Proof.
  intros Hne Hp Hmax. pose proof (Atoi_digits _ _ Hne Hp Hmax) as HA.
  destruct ds as [|d r]; [congruence|].
  unfold deriveHTTPForwardAddress. now rewrite HA.
Qed.

(** One byte in front of the port, neither a digit nor a minus sign: a
    plus sign is read by the first [Atoi], anything else is skipped by
    [addr[1:]]. *)
Lemma derive_prefixed_port c ds n :
  ds <> "" -> parse_digits 0 ds = Some n -> n <= maxInt ->
  is_digit c = false -> c <> "-"%char ->
  deriveHTTPForwardAddress (String c ds) = localhost n.
Proof.
  intros Hne Hp Hmax Hd Hm. pose proof (Atoi_digits _ _ Hne Hp Hmax) as HA.
  pose proof (parse_digits_all_digits _ _ _ Hp) as Hall.
  destruct (all_digits_parse _ 0 ltac:(lia) Hall) as (v & Hv & Hle).
  assert (v = n) as -> by congruence.
  assert (Ascii.eqb c "-" = false) as Hm' by now apply Ascii.eqb_neq.
  unfold deriveHTTPForwardAddress.
  destruct (Ascii.eqb_spec c "+") as [->|Hplus].
  - destruct ds as [|d r]; [congruence|].
    unfold Atoi at 1.
    change (is_sign "+") with true. change (Ascii.eqb "+" "-") with false.
    cbv iota. rewrite Hp.
    replace (minInt <=? n)%Z with true
      by (symmetry; apply Z.leb_le; unfold minInt; lia).
    replace (n <=? maxInt)%Z with true by (symmetry; now apply Z.leb_le).
    reflexivity.
  - assert (Atoi (String c ds) = None) as ->.
    { unfold Atoi, is_sign. rewrite Hm'.
      replace (Ascii.eqb c "+") with false
        by (symmetry; now apply Ascii.eqb_neq).
      cbn [orb parse_digits]. now rewrite Hd. }
    now rewrite HA.
Qed.

(** C10. [deriveHTTPForwardAddress] is idempotent.  In particular a bare
    decimal port number [ds] with value [n] (within [int]) becomes
    ["http://localhost:n"], also behind one leading byte such as [":"]
    (any byte that is neither a digit nor ["-"], which would be read as
    part of the number); an address containing ["://"] is returned
    unchanged; the empty string is mapped to itself. *)
Theorem deriveHTTPForwardAddress_idempotent :
  (forall s,
     deriveHTTPForwardAddress (deriveHTTPForwardAddress s)
     = deriveHTTPForwardAddress s) /\
  (forall ds n,
     ds <> "" -> parse_digits 0 ds = Some n -> n <= maxInt ->
     deriveHTTPForwardAddress ds = "http://localhost:" ++ FormatInt n /\
     forall c, is_digit c = false -> c <> "-"%char ->
       deriveHTTPForwardAddress (String c ds)
       = "http://localhost:" ++ FormatInt n) /\
  (forall s, Contains s "://" = true -> deriveHTTPForwardAddress s = s) /\
  deriveHTTPForwardAddress "" = "".
Proof.
  split; [|split; [|split]].
  - intros s. apply derive_result_fixed.
  - intros ds n Hne Hp Hmax. split.
    + now apply derive_bare_port.
    + intros c Hd Hm. now apply derive_prefixed_port.
  - apply derive_scheme_unchanged.
  - reflexivity.
Qed.

Lemma deriveHTTPForwardAddress_idempotent_witness :
  deriveHTTPForwardAddress "8080" = "http://localhost:8080" /\
  deriveHTTPForwardAddress ":8080" = "http://localhost:8080" /\
  deriveHTTPForwardAddress "https://example.com" = "https://example.com".
Proof.
  destruct deriveHTTPForwardAddress_idempotent as (_ & Hport & Hscheme & _).
  destruct (Hport "8080" 8080 ltac:(discriminate) eq_refl
              ltac:(unfold maxInt; lia)) as [Hbare Hlead].
  split; [exact Hbare|split].
  - exact (Hlead ":"%char eq_refl ltac:(discriminate)).
  - exact (Hscheme "https://example.com" eq_refl).
Defined.

(** ** [ApplyProfile] *)

Lemma ApplyProfile_missing c name :
  name <> "" -> Profiles c !! name = None ->
  ApplyProfile c name = Returned (c, Some (ErrProfileNotFound name)).
Proof.
  intros Hn Hl. unfold ApplyProfile.
  destruct (String.eqb_spec name ""); [contradiction|]. now rewrite Hl.
Qed.

(** A profile that is there: each non-empty field of the profile replaces
    the top-level one, the others and the profile table stay. *)
Lemma ApplyProfile_found c name profile :
  name <> "" -> Profiles c !! name = Some (Some profile) ->
  exists c',
    ApplyProfile c name = Returned (c', None) /\
    Profiles c' = Profiles c /\
    RemoteAddr (Default c') = override (RemoteAddr profile) (RemoteAddr (Default c)) /\
    ForwardAddr (Default c') = override (ForwardAddr profile) (ForwardAddr (Default c)) /\
    Token (Default c') = override (Token profile) (Token (Default c)) /\
    DynamicForwards (Default c')
    = override (DynamicForwards profile) (DynamicForwards (Default c)).
Proof.
  intros Hn Hl. unfold ApplyProfile.
  destruct (String.eqb_spec name ""); [contradiction|]. rewrite Hl.
  eexists. split; [reflexivity|]. cbn. repeat split.
Qed.

Lemma override_spec p cur :
  (p = "" -> override p cur = cur) /\ (p <> "" -> override p cur = p).
Proof.
  unfold override. destruct (String.eqb_spec p ""); split; congruence.
Qed.

(** Away from nil entries [ApplyProfile] does what its comment says: it
    returns an error exactly for a non-empty name without a profile, leaves
    the configuration alone then and for the empty name, and otherwise
    overrides the top-level fields for which the profile has a value. *)
Lemma ApplyProfile_without_nil_entry c name :
  Profiles c !! name <> Some None ->
  ((exists c' e, ApplyProfile c name = Returned (c', Some e))
   <-> name <> "" /\ Profiles c !! name = None) /\
  (name = "" \/ Profiles c !! name = None ->
   exists err, ApplyProfile c name = Returned (c, err)) /\
  (forall profile,
     name <> "" -> Profiles c !! name = Some (Some profile) ->
     exists c',
       ApplyProfile c name = Returned (c', None) /\
       Profiles c' = Profiles c /\
       RemoteAddr (Default c') = override (RemoteAddr profile) (RemoteAddr (Default c)) /\
       ForwardAddr (Default c') = override (ForwardAddr profile) (ForwardAddr (Default c)) /\
       Token (Default c') = override (Token profile) (Token (Default c)) /\
       DynamicForwards (Default c')
       = override (DynamicForwards profile) (DynamicForwards (Default c))).
Proof.
  intros Hnil. split; [split|split].
  - intros (c' & e & H). unfold ApplyProfile in H.
    destruct (String.eqb_spec name "") as [->|Hn]; [discriminate|].
    destruct (Profiles c !! name) as [[profile|]|]; try discriminate. now split.
  - intros [Hn Hl]. exists c, (ErrProfileNotFound name). now apply ApplyProfile_missing.
  - intros [->|Hl]; [now exists None|].
    destruct (String.eqb_spec name "") as [->|Hn]; [now exists None|].
    exists (Some (ErrProfileNotFound name)). now apply ApplyProfile_missing.
  - intros profile. apply ApplyProfile_found.
Qed.

(** An entry holding the nil pointer: the key is found, and reading
    [profile.RemoteAddr] panics. *)
Lemma ApplyProfile_nil_entry c name :
  name <> "" -> Profiles c !! name = Some None ->
  ApplyProfile c name = Panicked.
Proof.
  intros Hn Hl. unfold ApplyProfile.
  destruct (String.eqb_spec name ""); [contradiction|]. now rewrite Hl.
Qed.

(** C8. On a configuration whose [Profiles] map has the entry ["dev"]
    with a nil [*Profile], [ApplyProfile] neither returns an error nor
    applies anything: it panics. *)
Theorem ApplyProfile_null_profile_panics :
  Profiles config_with_null_profile !! "dev" = Some None /\
  ApplyProfile config_with_null_profile "dev" = Panicked.
Proof.
  assert (Profiles config_with_null_profile !! "dev" = Some None) as H
    by apply lookup_singleton_eq.
  split; [exact H|]. now apply ApplyProfile_nil_entry.
Qed.

End ClientFacts.

(* ===================================================================== *)
(** * The tunnel store: theorems                                         *)
(* ===================================================================== *)

Module DatabaseFacts.

Import Database Scenario.
Local Open Scope string_scope.

(** ** [First] *)

Lemma first_by_id_cons r rows :
  first_by_id (r :: rows)
  = match first_by_id rows with
    | None => Some r
    | Some u => if (ID r <=? ID u)%Z then Some r else Some u
    end.
Proof. reflexivity. Qed.

Lemma first_by_id_In rows t : first_by_id rows = Some t -> In t rows.
Proof.
  revert t. induction rows as [|r rows IH]; intros t H; [discriminate|].
  rewrite first_by_id_cons in H. destruct (first_by_id rows) as [u|].
  - destruct (ID r <=? ID u)%Z; inversion H; subst; [now left|right; now apply IH].
  - inversion H. now left.
Qed.

Lemma first_by_id_None rows : first_by_id rows = None -> rows = [].
Proof.
  destruct rows as [|r rows]; [reflexivity|]. rewrite first_by_id_cons.
  destruct (first_by_id rows) as [u|]; [|discriminate].
  destruct (ID r <=? ID u)%Z; discriminate.
Qed.

Lemma First_found where_ db t :
  First where_ db = (t, None) -> In t (tunnels db) /\ where_ t = true.
Proof.
  unfold First. destruct (first_by_id _) as [u|] eqn:H; [|discriminate].
  intros [= <-]. apply first_by_id_In in H. now apply filter_In in H.
Qed.

Lemma First_not_found where_ db :
  (forall t, In t (tunnels db) -> where_ t = false) ->
  First where_ db = (zeroTunnel, Some ErrRecordNotFound).
Proof.
  intros Hnone. unfold First.
  destruct (first_by_id _) as [u|] eqn:H; [|reflexivity].
  apply first_by_id_In in H. apply filter_In in H as [Hin Hw].
  rewrite (Hnone _ Hin) in Hw. discriminate.
Qed.

Lemma First_some where_ db t :
  In t (tunnels db) -> where_ t = true ->
  exists u, First where_ db = (u, None).
Proof.
  intros Hin Hw. unfold First.
  destruct (first_by_id _) as [u|] eqn:H; [now exists u|].
  apply first_by_id_None in H.
  assert (In t (List.filter where_ (tunnels db))) as Hf
    by (apply filter_In; now split).
  rewrite H in Hf. destruct Hf.
Qed.

(** A key that is unique in the table singles out its row. *)
Lemma NoDup_map_inj {A B} (f : A -> B) (l : list A) x y :
  List.NoDup (map f l) -> In x l -> In y l -> f x = f y -> x = y.
Proof.
  induction l as [|a l IH]; intros Hnd Hx Hy Hf; [destruct Hx|].
  cbn in Hnd. apply NoDup_cons_iff in Hnd as [Hnot Hnd].
  destruct Hx as [->|Hx], Hy as [->|Hy]; auto.
  - exfalso. apply Hnot. rewrite Hf. now apply in_map.
  - exfalso. apply Hnot. rewrite <- Hf. now apply in_map.
Qed.

Lemma GetTunnelByToken_found db t :
  List.NoDup (map Token (tunnels db)) -> In t (tunnels db) ->
  GetTunnelByToken db (Token t) = (t, None).
Proof.
  intros Hnd Hin. unfold GetTunnelByToken.
  destruct (First_some (token_is (Token t)) db t Hin) as [u Hu].
  { unfold token_is. apply String.eqb_refl. }
  rewrite Hu. destruct (First_found _ _ _ Hu) as [Hu_in Hu_tok].
  unfold token_is in Hu_tok. apply String.eqb_eq in Hu_tok.
  now rewrite (NoDup_map_inj Token _ u t Hnd Hu_in Hin Hu_tok).
Qed.

Lemma GetTunnelByToken_not_found db token :
  (forall t, In t (tunnels db) -> Token t <> token) ->
  GetTunnelByToken db token = (zeroTunnel, Some ErrRecordNotFound).
Proof.
  intros Hnone. apply First_not_found. intros t Hin.
  unfold token_is. apply String.eqb_neq. now apply Hnone.
Qed.

Lemma GetTunnelByID_found db t :
  List.NoDup (map ID (tunnels db)) -> In t (tunnels db) ->
  GetTunnelByID db (ID t) = (t, None).
Proof.
  intros Hnd Hin. unfold GetTunnelByID.
  destruct (First_some (id_is (ID t)) db t Hin) as [u Hu].
  { unfold id_is. apply Z.eqb_refl. }
  rewrite Hu. destruct (First_found _ _ _ Hu) as [Hu_in Hu_id].
  unfold id_is in Hu_id. apply Z.eqb_eq in Hu_id.
  now rewrite (NoDup_map_inj ID _ u t Hnd Hu_in Hin Hu_id).
Qed.

(** ** Columns under [Update] *)

Section Columns.

Variables (where_ : Tunnel -> bool) (now : Time).

(** A column that [set] leaves alone, and that is not [UpdatedAt], keeps
    its values row by row. *)
Lemma update_rows_column {B} (col : Tunnel -> B) set rows :
  (forall t, col (mkTunnel (ID (set t)) (PrincipalID (set t)) (Name (set t))
                    (Token (set t)) (Subdomain (set t)) (LastTCPPort (set t))
                    (CreatedAt (set t)) now) = col t) ->
  map col (update_rows where_ set now rows) = map col rows.
Proof.
  intros Hcol. unfold update_rows. rewrite map_map. apply map_ext.
  intros t. destruct (where_ t); [apply Hcol|reflexivity].
Qed.

End Columns.

(** ** The constraints hold in every reachable store *)

Lemma NoDup_map_filter {A B} (f : A -> B) p (l : list A) :
  List.NoDup (map f l) -> List.NoDup (map f (List.filter p l)).
Proof.
  induction l as [|a l IH]; intros Hnd; [constructor|].
  cbn in Hnd. apply NoDup_cons_iff in Hnd as [Hnot Hnd]. cbn.
  destruct (p a); [|now apply IH].
  cbn. apply NoDup_cons_iff. split; [|now apply IH].
  intros Hin. apply Hnot. apply in_map_iff in Hin as (x & Hx & Hxin).
  apply filter_In in Hxin as [Hxin _]. apply in_map_iff. now exists x.
Qed.

Lemma NoDup_map_snoc {A B} (f : A -> B) (l : list A) x :
  List.NoDup (map f l) -> (forall y, In y l -> f y <> f x) ->
  List.NoDup (map f (l ++ [x])).
Proof.
  induction l as [|a l IH]; intros Hnd Hfresh; cbn.
  - apply NoDup_cons_iff. split; [intros []|constructor].
  - cbn in Hnd. apply NoDup_cons_iff in Hnd as [Hnot Hnd].
    apply NoDup_cons_iff. split.
    + rewrite map_app, in_app_iff. intros [Hin|[Hin|[]]]; [now apply Hnot|].
      apply (Hfresh a); [now left|now symmetry].
    + apply IH; [exact Hnd|]. intros y Hy. apply Hfresh. now right.
Qed.

Lemma set_subdomain_keeps_unique id subdomain now rows :
  List.NoDup (map ID rows) -> List.NoDup (map Subdomain rows) ->
  (forall u, In u rows -> ID u <> id -> Subdomain u <> subdomain) ->
  List.NoDup (map Subdomain
           (update_rows (id_is id) (set_subdomain subdomain) now rows)).
Proof.
  induction rows as [|t rows IH]; intros Hid Hsub Hfree; [constructor|].
  cbn in Hid, Hsub.
  apply NoDup_cons_iff in Hid as [Hid_t Hid].
  apply NoDup_cons_iff in Hsub as [Hsub_t Hsub].
  assert (forall u, In u rows -> ID u <> id -> Subdomain u <> subdomain) as Hfree'
    by (intros u Hu; apply Hfree; now right).
  cbn. apply NoDup_cons_iff. split; [|now apply IH].
  intros Hin. apply in_map_iff in Hin as (x' & Hx' & Hin).
  unfold update_rows in Hin. apply in_map_iff in Hin as (x & <- & Hxin).
  unfold id_is in *.
  destruct (ID t =? id)%Z eqn:Et; destruct (ID x =? id)%Z eqn:Ex; cbn in Hx'.
  - apply Z.eqb_eq in Et, Ex. apply Hid_t. apply in_map_iff.
    exists x. split; [congruence|exact Hxin].
  - apply Z.eqb_neq in Ex. now apply (Hfree' x Hxin Ex).
  - apply Z.eqb_neq in Et. apply (Hfree t (or_introl eq_refl) Et). congruence.
  - apply Hsub_t. apply in_map_iff. exists x. split; [exact Hx'|exact Hxin].
Qed.

Lemma subdomain_taken_false db id subdomain :
  subdomain_taken db id subdomain = false ->
  (forall u, In u (tunnels db) -> ID u <> id)
  \/ (forall u, In u (tunnels db) -> ID u <> id -> Subdomain u <> subdomain).
Proof.
  unfold subdomain_taken. intros H. apply andb_false_iff in H as [H|H].
  - left. intros u Hu Hid.
    assert (existsb (id_is id) (tunnels db) = true) as Hex.
    { apply existsb_exists. exists u. split; [exact Hu|].
      unfold id_is. now apply Z.eqb_eq. }
    congruence.
  - right. intros u Hu Hid Hs.
    assert (existsb (fun u => negb (id_is id u) && subdomain_is subdomain u)
                    (tunnels db) = true) as Hex.
    { apply existsb_exists. exists u. split; [exact Hu|].
      unfold id_is, subdomain_is. apply andb_true_iff. split.
      - apply negb_true_iff. now apply Z.eqb_neq.
      - now apply String.eqb_eq. }
    congruence.
Qed.

Lemma update_rows_no_match where_ set now rows :
  (forall u, In u rows -> where_ u = false) ->
  update_rows where_ set now rows = rows.
Proof.
  intros H. unfold update_rows. rewrite <- (map_id rows) at 2.
  apply map_ext_in. intros u Hu. now rewrite (H u Hu).
Qed.

Lemma constraints_empty : constraints empty.
Proof. split; constructor. Qed.

Lemma constraints_exec db s : constraints db -> constraints (exec db s).
Proof.
  intros [Hid Htok Hsub]. destruct s as [opts now|id port now|id subdomain now|id pid].
  - cbn [exec]. unfold CreateTunnel.
    destruct (existsb _ (tunnels db)) eqn:Hex; cbn; [now split|].
    assert (forall u, In u (tunnels db) ->
              ID u <> tunnels_id_seq db /\ Token u <> optToken opts
              /\ Subdomain u <> optSubdomain opts) as Hfresh.
    { intros u Hu.
      assert (id_is (tunnels_id_seq db) u || token_is (optToken opts) u
              || subdomain_is (optSubdomain opts) u = false) as Hf.
      { destruct (_ || _ || _) eqn:E; [|reflexivity].
        assert (existsb (fun u => id_is (tunnels_id_seq db) u
                   || token_is (optToken opts) u
                   || subdomain_is (optSubdomain opts) u) (tunnels db) = true)
          as Hc by (apply existsb_exists; now exists u).
        congruence. }
      apply orb_false_iff in Hf as [Hf H3]. apply orb_false_iff in Hf as [H1 H2].
      unfold id_is, token_is, subdomain_is in *.
      apply Z.eqb_neq in H1. apply String.eqb_neq in H2, H3. now repeat split. }
    split; cbn; apply NoDup_map_snoc; auto; intros y Hy; cbn; now apply Hfresh.
  - cbn. split; cbn.
    + rewrite update_rows_column; [exact Hid|reflexivity].
    + rewrite update_rows_column; [exact Htok|reflexivity].
    + rewrite update_rows_column; [exact Hsub|reflexivity].
  - cbn [exec]. unfold UpdateTunnelSubdomain.
    destruct (subdomain_taken db id subdomain) eqn:Ht; cbn; [now split|].
    split; cbn.
    + rewrite update_rows_column; [exact Hid|reflexivity].
    + rewrite update_rows_column; [exact Htok|reflexivity].
    + destruct (subdomain_taken_false _ _ _ Ht) as [Hno|Hfree].
      * rewrite update_rows_no_match; [exact Hsub|].
        intros u Hu. unfold id_is. apply Z.eqb_neq. now apply Hno.
      * now apply set_subdomain_keeps_unique.
  - cbn. split; cbn; now apply NoDup_map_filter.
Qed.

Lemma reachable_constraints db : reachable_store db -> constraints db.
Proof.
  induction 1 as [|db s _ IH]; [apply constraints_empty|now apply constraints_exec].
Qed.

(** ** Resolving a token *)




(** ** Persisting an allocated port *)


(** ** Changing a subdomain, deleting a tunnel *)

Lemma subdomain_taken_true db id subdomain t1 t2 :
  In t1 (tunnels db) -> In t2 (tunnels db) ->
  ID t2 = id -> ID t1 <> id -> Subdomain t1 = subdomain ->
  subdomain_taken db id subdomain = true.
Proof.
  intros H1 H2 Hid Hne Hs. unfold subdomain_taken. apply andb_true_iff. split.
  - apply existsb_exists. exists t2. split; [exact H2|].
    unfold id_is. now apply Z.eqb_eq.
  - apply existsb_exists. exists t1. split; [exact H1|].
    unfold id_is, subdomain_is. apply andb_true_iff. split.
    + apply negb_true_iff. now apply Z.eqb_neq.
    + now apply String.eqb_eq.
Qed.

Lemma UpdateTunnelSubdomain_taken db id subdomain now :
  subdomain_taken db id subdomain = true ->
  UpdateTunnelSubdomain db id subdomain now = (db, Some ErrSubdomainTaken).
Proof. intros H. unfold UpdateTunnelSubdomain. now rewrite H. Qed.

Lemma filter_all {A} (p : A -> bool) l :
  (forall x, In x l -> p x = true) -> List.filter p l = l.
Proof.
  induction l as [|a l IH]; intros H; [reflexivity|]. cbn.
  rewrite (H a (or_introl eq_refl)). f_equal. apply IH.
  intros x Hx. apply H. now right.
Qed.

Lemma filter_changed {A} (p : A -> bool) l :
  List.filter p l <> l -> exists x, In x l /\ p x = false.
Proof.
  induction l as [|a l IH]; intros H; [now contradiction H|]. cbn in H.
  destruct (p a) eqn:Ea.
  - destruct IH as (x & Hx & Hp); [intros E; apply H; now rewrite E|].
    exists x. split; [now right|exact Hp].
  - exists a. split; [now left|exact Ea].
Qed.

Lemma DeleteTunnelByID_not_owner db id principalID :
  (forall t, In t (tunnels db) -> ID t = id -> PrincipalID t <> principalID) ->
  DeleteTunnelByID db id principalID = (db, None).
Proof.
  intros H. unfold DeleteTunnelByID. rewrite filter_all; [now destruct db|].
  intros t Hin. apply negb_true_iff, andb_false_iff. unfold id_is.
  destruct (ID t =? id)%Z eqn:E; [right|now left].
  apply Z.eqb_eq in E. apply Z.eqb_neq. now apply H.
Qed.

Lemma DeleteTunnelByID_changed db id principalID :
  fst (DeleteTunnelByID db id principalID) <> db ->
  exists t, In t (tunnels db) /\ ID t = id /\ PrincipalID t = principalID.
Proof.
  intros H. unfold DeleteTunnelByID in H. cbn in H.
  destruct (filter_changed (fun t => negb (id_is id t && (PrincipalID t =? principalID)%Z))
              (tunnels db)) as (t & Hin & Hp).
  { intros E. apply H. rewrite E. now destruct db. }
  exists t. split; [exact Hin|]. apply negb_false_iff, andb_true_iff in Hp as [H1 H2].
  unfold id_is in H1. apply Z.eqb_eq in H1, H2. now split.
Qed.

End DatabaseFacts.

(* ===================================================================== *)
(** * The management handlers: theorems                                  *)
(* ===================================================================== *)

Module WebServerFacts.

Import GoStrings Database DatabaseFacts WebServer Scenario.
Local Open Scope string_scope.

Section Handlers.

Variable NormalizeIdentifier : string -> string + string.
Variables proxyScheme proxyDomain : string.

Local Abbreviation patch := (patchTunnel NormalizeIdentifier proxyScheme proxyDomain).

Lemma deleteTunnel_changed db principle idParam :
  fst (deleteTunnel db principle idParam) <> db ->
  exists t, In t (tunnels db) /\ ID t = fst (ParseInt idParam)
            /\ PrincipalID t = Principals.ID principle.
Proof.
  unfold deleteTunnel. destruct (fst (ParseInt idParam) <=? 0)%Z; [now intros []|].
  intros H. now apply DeleteTunnelByID_changed.
Qed.

Lemma patchTunnel_changed db principle idParam form now :
  fst (patch db principle idParam form now) <> db ->
  exists t, In t (tunnels db) /\ ID t = fst (ParseInt idParam)
            /\ PrincipalID t = Principals.ID principle.
Proof.
  unfold patchTunnel. destruct (fst (ParseInt idParam) <=? 0)%Z; [now intros []|].
  destruct form as [formSubdomain|]; [|now intros []].
  destruct (NormalizeIdentifier formSubdomain) as [subdomain|e]; [|now intros []].
  destruct (GetTunnelByID db (fst (ParseInt idParam))) as [t [e|]] eqn:Hget;
    [now intros []|].
  destruct (PrincipalID t =? Principals.ID principle)%Z eqn:Hown; cbn [negb];
    [|now intros []].
  intros _. apply First_found in Hget as [Hin Hid].
  unfold id_is in Hid. apply Z.eqb_eq in Hid, Hown. now exists t.
Qed.

Lemma patchTunnel_not_owner db principle idParam formSubdomain subdomain now t :
  (0 < fst (ParseInt idParam))%Z ->
  NormalizeIdentifier formSubdomain = inl subdomain ->
  In t (tunnels db) -> ID t = fst (ParseInt idParam) ->
  (forall u, In u (tunnels db) -> ID u = fst (ParseInt idParam) ->
             PrincipalID u <> Principals.ID principle) ->
  patch db principle idParam (Some formSubdomain) now
  = (db, PlainText StatusForbidden "Access denied").
Proof.
  intros Hpos Hnorm Hin Hid Hforeign. unfold patchTunnel.
  replace (fst (ParseInt idParam) <=? 0)%Z with false
    by (symmetry; apply Z.leb_gt; exact Hpos).
  rewrite Hnorm.
  destruct (First_some (id_is (fst (ParseInt idParam))) db t Hin) as [u Hu].
  { unfold id_is. now apply Z.eqb_eq. }
  unfold GetTunnelByID. rewrite Hu.
  apply First_found in Hu as [Hu_in Hu_id].
  unfold id_is in Hu_id. apply Z.eqb_eq in Hu_id.
  replace (PrincipalID u =? Principals.ID principle)%Z with false; [reflexivity|].
  symmetry. apply Z.eqb_neq. now apply Hforeign.
Qed.

End Handlers.

(** C9.  [DeleteTunnelByID] with a principal id that no tunnel of the given
    id carries leaves the store as it is; whenever the DELETE or the PATCH
    endpoint changes the store, the store holds a tunnel with the requested
    id whose [PrincipalID] is the authenticated principal's; and a PATCH for
    an existing tunnel of another principal is answered 403 "Access denied"
    with the store untouched, [UpdateTunnelSubdomain] not being reached. *)
Theorem tunnel_mutation_requires_ownership
        (NormalizeIdentifier : string -> string + string)
        (proxyScheme proxyDomain : string)
        (db : DB) (principle : Principals.Principal) (idParam : string) :
  let id := fst (ParseInt idParam) in
  let principalID := Principals.ID principle in
  (forall id' principalID',
     (forall t, In t (tunnels db) -> ID t = id' -> PrincipalID t <> principalID') ->
     DeleteTunnelByID db id' principalID' = (db, None)) /\
  (fst (deleteTunnel db principle idParam) <> db ->
   exists t, In t (tunnels db) /\ ID t = id /\ PrincipalID t = principalID) /\
  (forall form now,
     fst (patchTunnel NormalizeIdentifier proxyScheme proxyDomain
                      db principle idParam form now) <> db ->
     exists t, In t (tunnels db) /\ ID t = id /\ PrincipalID t = principalID) /\
  (forall formSubdomain subdomain now t,
     (0 < id)%Z ->
     NormalizeIdentifier formSubdomain = inl subdomain ->
     In t (tunnels db) -> ID t = id ->
     (forall u, In u (tunnels db) -> ID u = id -> PrincipalID u <> principalID) ->
     patchTunnel NormalizeIdentifier proxyScheme proxyDomain
                 db principle idParam (Some formSubdomain) now
     = (db, PlainText StatusForbidden "Access denied")).
Proof.
  cbv zeta. split; [|split; [|split]].
  - intros id' principalID'. apply DeleteTunnelByID_not_owner.
  - apply deleteTunnel_changed.
  - intros form now. apply patchTunnel_changed.
  - intros formSubdomain subdomain now t. apply patchTunnel_not_owner.
Qed.

Lemma tunnel_mutation_requires_ownership_witness :
  DeleteTunnelByID store_with_one_tunnel 1 8 = (store_with_one_tunnel, None) /\
  patchTunnel inl "https" "example.com" store_with_one_tunnel mallory "1"
              (Some "eve") 200
  = (store_with_one_tunnel, PlainText StatusForbidden "Access denied").
Proof.
  destruct (tunnel_mutation_requires_ownership
              inl "https" "example.com" store_with_one_tunnel mallory "1")
    as (Hdelete & _ & _ & Hpatch).
  split.
  - apply Hdelete. intros t [<-|[]] _. cbn. discriminate.
  - apply (Hpatch "eve" "eve" 200 (mkTunnel 1 7 "Default" "t0k3n" "alice" 0 100 100)).
    + reflexivity.
    + reflexivity.
    + left. reflexivity.
    + reflexivity.
    + intros u [<-|[]] _. cbn. discriminate.
Defined.

End WebServerFacts.

(* ===================================================================== *)
(** * The broker: theorems                                               *)
(* ===================================================================== *)

Module BrokerFacts.

Import Database DatabaseFacts Broker Scenario.

(** ** Programs *)

Lemma run_cons b f prog : run b (f :: prog) = run (f b) prog.
Proof. reflexivity. Qed.

Lemma run_app b p q : run b (p ++ q) = run (run b p) q.
Proof. unfold run. apply fold_left_app. Qed.


(** ** The Registry *)

Lemma bind_free name sid reg :
  reg !! name = None -> bind name sid reg = (<[name := sid]> reg, RegOk).
Proof. intros H. unfold bind. now rewrite H. Qed.

Lemma bind_held name sid reg holder :
  reg !! name = Some holder -> bind name sid reg = (reg, RegConflict).
Proof. intros H. unfold bind. now rewrite H. Qed.

Lemma replace_holder name old new reg :
  reg !! name = Some old -> replace name old new reg = (<[name := new]> reg, RegOk).
Proof. intros H. unfold replace. rewrite H. now rewrite decide_True. Qed.

Lemma remove_other name sid reg holder :
  reg !! name = Some holder -> holder <> sid -> remove name sid reg = (reg, RegNotFound).
Proof. intros H Hne. unfold remove. rewrite H. now rewrite decide_False. Qed.

(** After any Registry operation a name has the holder it had, the new
    one, or none: never the Session asked to be removed. *)
Lemma remove_lookup name sid reg n :
  fst (remove name sid reg) !! n
  = if decide (n = name /\ reg !! name = Some sid) then None else reg !! n.
Proof.
  unfold remove. destruct (reg !! name) as [holder|] eqn:H.
  - destruct (decide (holder = sid)) as [->|Hne]; cbn.
    + destruct (decide (n = name)) as [->|Hn].
      * rewrite decide_True by done. apply lookup_delete_eq.
      * rewrite decide_False by (intros [? _]; done).
        now apply lookup_delete_ne.
    + rewrite decide_False; [done|]. intros [_ [= E]]. done.
  - cbn. rewrite decide_False; [done|]. intros [_ E]. done.
Qed.

(** ** Updates that activate nothing *)

Lemma calm_set_state st : st <> Active -> calm (set_state st).
Proof. intros H s. split; [reflexivity|]. cbn. congruence. Qed.

Lemma calm_set_streams f : calm (set_streams f).
Proof. intros s. now split. Qed.

Lemma calm_set_heartbeat now : calm (set_heartbeat now).
Proof. intros s. now split. Qed.

Lemma calm_close_transport : calm close_transport.
Proof. intros s. now split. Qed.

Lemma calm_new_stream : calm new_stream.
Proof. intros s. now split. Qed.

Create HintDb broker.

#[local] Hint Resolve calm_set_streams calm_set_heartbeat calm_close_transport
  calm_new_stream : broker.

Lemma calm_Draining : calm (set_state Draining).
Proof. now apply calm_set_state. Qed.

Lemma calm_Closed : calm (set_state Closed).
Proof. now apply calm_set_state. Qed.

#[local] Hint Resolve calm_Draining calm_Closed : broker.

Lemma active_holds_with_session b sid g x name :
  calm g -> active_holds (with_session sid g b) x name -> active_holds b x name.
Proof.
  intros Hg (s' & Hl & Hst & Hn). cbn in Hl.
  destruct (decide (x = sid)) as [->|Hne].
  - rewrite lookup_alter_eq in Hl.
    destruct (sessions b !! sid) as [s|] eqn:Hs; [|discriminate].
    cbn in Hl. injection Hl as <-. destruct (Hg s) as [Hname Hstate].
    exists s. split; [exact Hs|]. split; [now apply Hstate|congruence].
  - rewrite lookup_alter_ne in Hl by done. now exists s'.
Qed.

Lemma quiet_with_session sid g : calm g -> quiet (with_session sid g).
Proof. intros Hg b x name. now apply active_holds_with_session. Qed.

Lemma quiet_with_registry f : quiet (with_registry f).
Proof. intros b x name H. exact H. Qed.



Lemma quiet_add_session s : sess_state s <> Active -> quiet (add_session s).
Proof.
  intros Hs b x name (s' & Hl & Hst & Hn). cbn in Hl.
  destruct (decide (x = next_session b)) as [->|Hne].
  - rewrite lookup_insert_eq in Hl. injection Hl as <-. contradiction.
  - rewrite lookup_insert_ne in Hl by done. now exists s'.
Qed.

Lemma quiet_mark sid st : st <> Active -> quiet (mark sid st).
Proof. intros H. apply quiet_with_session. now apply calm_set_state. Qed.





(** ** Updates that keep the invariant *)

Lemma invariant_init : invariant init.
Proof.
  split.
  - intros sid [s Hs]. cbn in Hs. now rewrite lookup_empty in Hs.
  - intros sid name (s & Hs & _). cbn in Hs. now rewrite lookup_empty in Hs.
Qed.

Lemma is_Some_alter (g : Session -> Session) sid (m : gmap SessionID Session) x :
  is_Some (alter g sid m !! x) -> is_Some (m !! x).
Proof.
  destruct (decide (x = sid)) as [->|Hne].
  - rewrite lookup_alter_eq. destruct (m !! sid); cbn; [eauto|intros [? ?]; done].
  - now rewrite lookup_alter_ne by done.
Qed.

Lemma invariant_with_session b sid g :
  calm g -> invariant b -> invariant (with_session sid g b).
Proof.
  intros Hg [Hids Hh]. split.
  - intros x Hx. cbn in *. apply Hids. now apply is_Some_alter in Hx.
  - intros x name Hx. cbn. apply Hh. now apply active_holds_with_session in Hx.
Qed.

Lemma invariant_send b sid frame : invariant b -> invariant (send sid frame b).
Proof. intros [Hids Hh]. now split. Qed.

Lemma invariant_write_log b entry : invariant b -> invariant (write_log entry b).
Proof. intros [Hids Hh]. now split. Qed.

Lemma invariant_add_session b s :
  sess_state s <> Active -> invariant b -> invariant (add_session s b).
Proof.
  intros Hs [Hids Hh]. split.
  - intros x Hx. cbn in *. destruct (decide (x = next_session b)) as [->|Hne]; [lia|].
    rewrite lookup_insert_ne in Hx by done. apply Hids in Hx. lia.
  - intros x name Hx. cbn. apply Hh. now apply quiet_add_session in Hx.
Qed.

Lemma invariant_registry_bind b name sid :
  invariant b -> invariant (registry_bind name sid b).
Proof.
  intros [Hids Hh]. split; [exact Hids|].
  intros x n Hx. cbn. apply Hh in Hx. unfold bind.
  destruct (registry b !! name) as [holder|] eqn:Hname; cbn; [exact Hx|].
  rewrite lookup_insert_ne; [exact Hx|]. intros <-. congruence.
Qed.

Lemma invariant_registry_remove b name sid :
  ~ active_holds b sid name -> invariant b ->
  invariant (registry_remove name sid b).
Proof.
  intros Hna [Hids Hh]. split; [exact Hids|].
  intros x n Hx. cbn. rewrite remove_lookup.
  pose proof (Hh x n Hx) as Hl.
  destruct (decide (n = name /\ registry b !! name = Some sid)) as [[-> Hs]|_];
    [|exact Hl].
  exfalso. apply Hna. assert (x = sid) as -> by congruence. exact Hx.
Qed.

Lemma invariant_activate b sid s :
  sessions b !! sid = Some s -> registry b !! sess_name s = Some sid ->
  invariant b -> invariant (mark sid Active b).
Proof.
  intros Hs Hreg [Hids Hh]. split.
  - intros x Hx. cbn in *. apply Hids. now apply is_Some_alter in Hx.
  - intros x name (s' & Hl & Hst & Hn). cbn in *.
    destruct (decide (x = sid)) as [->|Hne].
    + rewrite lookup_alter_eq, Hs in Hl. cbn in Hl. injection Hl as <-.
      cbn in Hn. now subst name.
    + rewrite lookup_alter_ne in Hl by done. apply Hh. now exists s'.
Qed.

Lemma not_active_after_mark b sid st name :
  st <> Active -> ~ active_holds (mark sid st b) sid name.
Proof.
  intros Hst (s & Hl & Hs & _). cbn in Hl. rewrite lookup_alter_eq in Hl.
  destruct (sessions b !! sid) as [s0|]; [|discriminate]. cbn in Hl.
  injection Hl as <-. cbn in Hs. contradiction.
Qed.

Lemma not_active_quiet f b sid name :
  quiet f -> ~ active_holds b sid name -> ~ active_holds (f b) sid name.
Proof. intros Hq Hna H. apply Hna. now apply Hq. Qed.

(** Teardown keeps the invariant. *)
Lemma invariant_teardown_prog b sid name :
  invariant b -> invariant (run b (teardown_prog sid name)).
Proof.
  intros Hinv. unfold teardown_prog, run. cbn [fold_left].
  apply invariant_with_session; [auto with broker|].
  apply invariant_with_session; [auto with broker|].
  apply invariant_registry_remove.
  - apply not_active_quiet; [apply quiet_with_session; auto with broker|].
    now apply not_active_after_mark.
  - apply invariant_with_session; [auto with broker|].
    apply invariant_with_session; [auto with broker|exact Hinv].
Qed.

(** What teardown leaves behind. *)
Lemma teardown_prog_sessions b sid name :
  sessions (run b (teardown_prog sid name)) = alter torn_down sid (sessions b).
Proof.
  unfold teardown_prog, run. cbn. rewrite !alter_alter_eq. reflexivity.
Qed.

Lemma teardown_prog_registry b sid name :
  registry (run b (teardown_prog sid name)) = fst (remove name sid (registry b)).
Proof. reflexivity. Qed.

(** ** The handshake, case by case *)

Lemma handshake_cases b db req now :
  handshake_case b req now (fst (fst (handshake b db req now)))
                 (snd (handshake b db req now)).
Proof.
  unfold handshake.
  destruct (GetTunnelByToken db (req_token req)) as [t [e|]]; [constructor|].
  destruct (derive_name db t (req_protocol req) now) as [name db'].
  unfold bind. destruct (registry b !! name) as [old|] eqn:Hreg; cbn [snd].
  - unfold holder_of, lookup. rewrite Hreg.
    destruct (sessions b !! old) as [o|] eqn:Hold; [|constructor].
    destruct (String.eqb_spec (sess_token o) (req_token req)) as [Htok|_];
      [|constructor].
    cbn. now apply (case_reconnect b req now name old o).
  - cbn. now apply (case_accepted b req now name).
Qed.

Lemma invariant_accept b req name now :
  registry b !! name = None -> invariant b ->
  invariant (run b (accept_prog b req name now)).
Proof.
  intros Hfree Hinv. unfold accept_prog, run. cbn [fold_left].
  eapply invariant_activate with (s := new_session req name now).
  - cbn. apply lookup_insert_eq.
  - cbn. rewrite bind_free by exact Hfree. cbn. apply lookup_insert_eq.
  - apply invariant_registry_bind. now apply invariant_add_session.
Qed.

(** The stale holder loses the name and stops being [Active]. *)
Lemma invariant_displace b name old new :
  registry b !! name = Some old -> invariant b ->
  invariant (mark old Draining (registry_replace name old new b)).
Proof.
  intros Hreg [Hids Hh]. split.
  - intros x Hx. cbn in *. apply Hids. now apply is_Some_alter in Hx.
  - intros x n Hx.
    assert (x <> old) as Hne.
    { intros ->. revert Hx. now apply not_active_after_mark. }
    apply quiet_mark in Hx; [|done].
    apply (quiet_with_registry _ b) in Hx. apply Hh in Hx.
    cbn. rewrite replace_holder by exact Hreg. cbn.
    rewrite lookup_insert_ne; [exact Hx|]. intros <-. congruence.
Qed.

Lemma reconnect_final_registry b req name old now :
  registry b !! name = Some old -> old <> next_session b ->
  registry (run b (reconnect_prog b req name old now))
  = <[name := next_session b]> (registry b).
Proof.
  intros Hreg Hne. unfold reconnect_prog. rewrite !run_app.
  change (registry (run (run (run b _) (teardown_prog old name)) _))
    with (registry (run (run b [add_session (new_session req name now);
                                registry_replace name old (next_session b)])
                        (teardown_prog old name))).
  rewrite teardown_prog_registry. cbn.
  rewrite replace_holder by exact Hreg. cbn.
  erewrite remove_other; [reflexivity|apply lookup_insert_eq|congruence].
Qed.

Lemma reconnect_final_sessions b req name old now :
  sessions (run b (reconnect_prog b req name old now))
  = alter (set_state Active) (next_session b)
      (alter torn_down old
         (<[next_session b := new_session req name now]> (sessions b))).
Proof.
  unfold reconnect_prog. rewrite !run_app.
  change (sessions (run ?x [mark ?n Active]))
    with (alter (set_state Active) n (sessions x)).
  now rewrite teardown_prog_sessions.
Qed.

Lemma invariant_reconnect b req name old o now :
  registry b !! name = Some old -> sessions b !! old = Some o ->
  invariant b -> invariant (run b (reconnect_prog b req name old now)).
Proof.
  intros Hreg Hold Hinv.
  assert (old <> next_session b) as Hne.
  { pose proof (ids_fresh b Hinv old (ex_intro _ o Hold)). lia. }
  pose proof (reconnect_final_registry b req name old now Hreg Hne) as Hfr.
  pose proof (reconnect_final_sessions b req name old now) as Hfs.
  unfold reconnect_prog in *. rewrite !run_app in *.
  set (b7 := run (run b _) (teardown_prog old name)) in *.
  change (run b7 [mark (next_session b) Active])
    with (mark (next_session b) Active b7) in *.
  eapply invariant_activate with (s := new_session req name now).
  - change (sessions b7) with (sessions (run (run b [add_session (new_session req name now);
               registry_replace name old (next_session b)]) (teardown_prog old name))).
    rewrite teardown_prog_sessions. cbn.
    rewrite lookup_alter_ne by done. apply lookup_insert_eq.
  - cbn in Hfr. cbn. rewrite Hfr. apply lookup_insert_eq.
  - subst b7. unfold teardown_prog, run. cbn [fold_left].
    apply invariant_with_session; [auto with broker|].
    apply invariant_with_session; [auto with broker|].
    apply invariant_registry_remove.
    + apply not_active_quiet; [apply quiet_with_session; auto with broker|].
      now apply not_active_after_mark.
    + apply invariant_with_session; [auto with broker|].
      apply (invariant_displace (add_session (new_session req name now) b)).
      * exact Hreg.
      * now apply invariant_add_session.
Qed.

Lemma invariant_handshake b db req now :
  invariant b -> invariant (run b (fst (fst (handshake b db req now)))).
Proof.
  intros Hinv. destruct (handshake_cases b db req now) as [reason|name Hfree|name old o Hreg Hold _].
  - now apply invariant_write_log.
  - now apply invariant_accept.
  - now apply (invariant_reconnect b req name old o).
Qed.

(** ** All events *)

Lemma invariant_teardown b sid : invariant b -> invariant (run b (teardown b sid)).
Proof.
  intros Hinv. unfold teardown.
  destruct (sessions b !! sid) as [s|]; [|exact Hinv].
  destruct (live s); [|exact Hinv]. now apply invariant_teardown_prog.
Qed.

Lemma invariant_on_stream b sid id f :
  invariant b -> invariant (on_stream sid id f b).
Proof. apply invariant_with_session. auto with broker. Qed.

Lemma invariant_on_frame b sid raw now :
  invariant b -> invariant (run b (on_frame b sid raw now)).
Proof.
  intros Hinv. unfold on_frame.
  destruct (sessions b !! sid) as [s|]; [|exact Hinv].
  destruct (decide (sess_state s = Active)); [|exact Hinv].
  destruct raw as [[id hint|id payload|id|]|].
  - now apply invariant_write_log.
  - destruct (sess_streams s !! id) as [st|]; [|now apply invariant_write_log].
    destruct (accepts ClientSide st);
      [now apply invariant_on_stream|now apply invariant_write_log].
  - destruct (sess_streams s !! id) as [st|]; [|now apply invariant_write_log].
    destruct (accepts ClientSide st);
      [now apply invariant_on_stream|now apply invariant_write_log].
  - apply invariant_with_session; [auto with broker|exact Hinv].
  - rewrite run_cons. apply invariant_teardown_prog. now apply invariant_write_log.
Qed.

Lemma invariant_public_connect b name hint :
  invariant b -> invariant (run b (fst (public_connect b name hint))).
Proof.
  intros Hinv. unfold public_connect.
  destruct (lookup name (registry b)) as [sid|]; [|exact Hinv].
  destruct (sessions b !! sid) as [s|]; [|exact Hinv].
  destruct (decide (sess_state s = Active)); [|exact Hinv].
  cbn. apply invariant_send. apply invariant_with_session; [auto with broker|exact Hinv].
Qed.

Lemma invariant_public_data b sid id payload :
  invariant b -> invariant (run b (fst (public_data b sid id payload))).
Proof.
  intros Hinv. unfold public_data.
  destruct (stream_of b sid id) as [st|]; [|exact Hinv].
  destruct (accepts PublicSide st); [|exact Hinv].
  cbn. apply invariant_send. now apply invariant_on_stream.
Qed.

Lemma invariant_public_close b sid id :
  invariant b -> invariant (run b (fst (public_close b sid id))).
Proof.
  intros Hinv. unfold public_close.
  destruct (stream_of b sid id) as [st|]; [|exact Hinv].
  destruct (accepts PublicSide st); [|exact Hinv].
  cbn. apply invariant_send. now apply invariant_on_stream.
Qed.




(** ** Reconnect *)


Lemma handshake_conflict b db req now t name old o :
  GetTunnelByToken db (req_token req) = (t, None) ->
  fst (derive_name db t (req_protocol req) now) = name ->
  registry b !! name = Some old ->
  sessions b !! old = Some o ->
  sess_token o <> req_token req ->
  handshake b db req now
  = (reject_prog req BindConflict,
     snd (derive_name db t (req_protocol req) now),
     Rejected BindConflict).
Proof.
  intros Hget Hname Hreg Hold Htok. unfold handshake. rewrite Hget.
  destruct (derive_name db t (req_protocol req) now) as [name' db'].
  cbn in Hname. subst name'.
  rewrite (bind_held _ _ _ _ Hreg). cbn [snd].
  unfold holder_of, lookup. rewrite Hreg, Hold.
  now destruct (String.eqb_spec (sess_token o) (req_token req)).
Qed.


Lemma torn_down_streams_closed s id st :
  sess_streams (torn_down s) !! id = Some st -> stream_state st = StreamClosed.
Proof.
  cbn. rewrite lookup_fmap. destruct (sess_streams s !! id); [|discriminate].
  cbn. now intros [= <-].
Qed.

(** ** Frames and streams *)

Lemma on_frame_dropped b sid s frame id now :
  sessions b !! sid = Some s -> sess_state s = Active ->
  frame_stream_id frame = Some id ->
  (sess_streams s !! id = None
   \/ exists st, sess_streams s !! id = Some st /\ stream_state st = StreamClosed) ->
  on_frame b sid (Some frame) now = [write_log (LogDroppedFrame sid frame)].
Proof.
  intros Hs Hact Hid Hgone. unfold on_frame. rewrite Hs.
  rewrite decide_True by exact Hact.
  destruct frame as [i hint|i payload|i|]; cbn in Hid; [reflexivity| | |discriminate];
    injection Hid as ->;
    (destruct Hgone as [->|(st & -> & Hst)]; [reflexivity|]);
    unfold accepts; now rewrite Hst.
Qed.

Lemma on_frame_malformed b sid s now :
  sessions b !! sid = Some s -> sess_state s = Active ->
  on_frame b sid None now
  = write_log (LogMalformedFrame sid) :: teardown_prog sid (sess_name s).
Proof.
  intros Hs Hact. unfold on_frame. rewrite Hs. now rewrite decide_True by exact Hact.
Qed.





(** ** Updates that relay nothing *)

Lemma mild_set_state st : mild (set_state st).
Proof. intros s. split; [auto|]. intros _ id x Hx. now exists x. Qed.

Lemma mild_set_heartbeat now : mild (set_heartbeat now).
Proof. intros s. split; [auto|]. intros _ id x Hx. now exists x. Qed.

Lemma mild_close_transport : mild close_transport.
Proof. intros s. split; [auto|]. intros _ id x Hx. now exists x. Qed.

Lemma mild_close_streams : mild (set_streams (fmap close_stream)).
Proof.
  intros s. split.
  - intros Hf id Hid. apply Hf. cbn in Hid. rewrite lookup_fmap in Hid.
    destruct (sess_streams s !! id); [eauto|destruct Hid; discriminate].
  - intros _ id x Hx. exists (close_stream x). cbn.
    rewrite lookup_fmap, Hx. now repeat split.
Qed.

Lemma mild_new_stream : mild new_stream.
Proof.
  intros s. split.
  - intros Hf id Hid. cbn in *.
    destruct (decide (id = sess_next_stream s)) as [->|Hne]; [lia|].
    rewrite lookup_insert_ne in Hid by done. apply Hf in Hid. lia.
  - intros Hf id x Hx. exists x. cbn. split; [|now split].
    rewrite lookup_insert_ne; [exact Hx|].
    intros <-. pose proof (Hf _ (ex_intro _ x Hx)). lia.
Qed.

Lemma close_from_bytes side x :
  to_public (close_from side x) = to_public x
  /\ to_client (close_from side x) = to_client x.
Proof.
  unfold close_from. destruct (stream_state x) as [|closer|]; [now split| |now split].
  destruct (decide (closer = side)); now split.
Qed.

Lemma mild_close_from side id : mild (set_streams (alter (close_from side) id)).
Proof.
  intros s. split.
  - intros Hf i Hi. apply Hf. cbn in Hi. now apply lookup_alter_is_Some in Hi.
  - intros _ i x Hx. cbn. destruct (decide (i = id)) as [->|Hne].
    + exists (close_from side x). rewrite lookup_alter_eq, Hx.
      split; [reflexivity|apply close_from_bytes].
    + exists x. rewrite lookup_alter_ne by done. now repeat split.
Qed.

#[local] Hint Resolve mild_set_state mild_set_heartbeat mild_close_transport
  mild_close_streams mild_new_stream mild_close_from : broker.













Section Lifecycle.

Context {timing : Timing}.

Lemma invariant_step b e : invariant b -> invariant (step b e).
Proof.
  intros Hinv. unfold Broker.step. destruct e; cbn [Broker.program].
  - now apply invariant_handshake.
  - now apply invariant_on_frame.
  - now apply invariant_public_connect.
  - now apply invariant_public_data.
  - now apply invariant_public_close.
  - now apply invariant_teardown.
  - now apply invariant_teardown.
  - unfold heartbeat_check.
    destruct (sessions b !! sid) as [s|]; [|exact Hinv].
    destruct (decide (sess_state s = Active)); [|exact Hinv].
    destruct (_ <? _)%Z; [now apply invariant_teardown_prog|exact Hinv].
Qed.

Lemma reachable_invariant b : reachable b -> invariant b.
Proof.
  induction 1 as [|b e _ IH]; [apply invariant_init|now apply invariant_step].
Qed.





(** C6.  For an [Active] Session: a frame that carries the id of a
    stream that is unknown or closed only adds an entry to the log (the
    session table and the Registry are as before, the Session still
    [Active]); a malformed frame tears the Session down: it is left
    [Closed], its transport released, every Stream closed, and it is no
    longer the holder of its name. *)
Theorem dead_stream_frame_dropped_malformed_fatal b sid s now :
  sessions b !! sid = Some s -> sess_state s = Active ->
  (forall frame id,
     frame_stream_id frame = Some id ->
     (sess_streams s !! id = None
      \/ exists st, sess_streams s !! id = Some st
                    /\ stream_state st = StreamClosed) ->
     step b (EvFrame sid (Some frame) now)
     = write_log (LogDroppedFrame sid frame) b
     /\ sessions (step b (EvFrame sid (Some frame) now)) !! sid = Some s
     /\ registry (step b (EvFrame sid (Some frame) now)) = registry b) /\
  (let b' := step b (EvFrame sid None now) in
   sessions b' !! sid = Some (torn_down s) /\
   sess_state (torn_down s) = Closed /\
   sess_transport_open (torn_down s) = false /\
   (forall id st, sess_streams (torn_down s) !! id = Some st ->
                  stream_state st = StreamClosed) /\
   lookup (sess_name s) (registry b') <> Some sid /\
   log b' = log b ++ [LogMalformedFrame sid]).
Proof.
  intros Hs Hact. split.
  - intros frame id Hid Hgone. unfold Broker.step. cbn [Broker.program].
    rewrite (on_frame_dropped b sid s frame id now Hs Hact Hid Hgone).
    cbn. auto.
  - cbv zeta. unfold Broker.step. cbn [Broker.program].
    rewrite (on_frame_malformed b sid s now Hs Hact). rewrite run_cons.
    rewrite teardown_prog_sessions, teardown_prog_registry.
    split; [cbn; now rewrite lookup_alter_eq, Hs|].
    split; [reflexivity|]. split; [reflexivity|].
    split; [apply torn_down_streams_closed|]. split; [|reflexivity].
    unfold lookup. cbn [registry write_log]. rewrite remove_lookup.
    destruct (decide _) as [_|Hn]; [discriminate|].
    intros Hl. apply Hn. now split.
Qed.








(** C2.  In every reachable store no two tunnels have the same
    subdomain, and when a tunnel asks for the subdomain of another,
    distinct tunnel, [UpdateTunnelSubdomain] returns [ErrSubdomainTaken]
    and the store is as before, the holder's row included.  In the
    broker, a handshake whose token resolves to a subdomain that an
    [Active] Session of another token holds is rejected with
    [BindConflict]; the Registry and the session table are as before, so
    the first Session stays bound and [Active]. *)
Theorem subdomain_conflict_rejected :
  (forall db,
     Database.reachable_store db ->
     List.NoDup (map Subdomain (tunnels db)) /\
     forall t1 t2 now,
       In t1 (tunnels db) -> In t2 (tunnels db) -> ID t2 <> ID t1 ->
       UpdateTunnelSubdomain db (ID t2) (Subdomain t1) now
       = (db, Some ErrSubdomainTaken)) /\
  (forall b db req now t first o,
     reachable b ->
     sessions b !! first = Some o -> sess_state o = Active ->
     sess_name o = SubdomainName (Subdomain t) ->
     GetTunnelByToken db (req_token req) = (t, None) ->
     req_protocol req = HTTP ->
     sess_token o <> req_token req ->
     snd (handshake b db req now) = Rejected BindConflict /\
     registry (step b (EvHandshake db req now)) = registry b /\
     sessions (step b (EvHandshake db req now)) = sessions b /\
     lookup (SubdomainName (Subdomain t)) (registry b) = Some first).
Proof.
  split.
  - intros db Hr. split; [now apply reachable_constraints in Hr as [_ _ Hsub]|].
    intros t1 t2 now H1 H2 Hne. apply UpdateTunnelSubdomain_taken.
    apply (subdomain_taken_true db (ID t2) (Subdomain t1) t1 t2);
      auto; congruence.
  - intros b db req now t first o Hr Hs Hact Hname Hget Hproto Htok.
    pose proof (reachable_invariant _ Hr) as Hinv.
    assert (registry b !! SubdomainName (Subdomain t) = Some first) as Hreg.
    { apply (active_is_holder b Hinv). now exists o. }
    assert (fst (derive_name db t (req_protocol req) now)
            = SubdomainName (Subdomain t)) as Hderive by now rewrite Hproto.
    unfold Broker.step. cbn [Broker.program].
    rewrite (handshake_conflict b db req now t _ first o Hget Hderive Hreg Hs Htok).
    cbn. auto.
Qed.

End Lifecycle.

(** ** The theorems at work *)

Local Open Scope string_scope.


Lemma reachable_one_session : @reachable every_30 broker_one_session.
Proof. apply reachable_step, reachable_init. Qed.

Lemma alice_session_lookup : sessions broker_two_streams !! 0%nat = Some alice_session.
Proof. vm_compute. reflexivity. Qed.



Lemma dead_stream_frame_dropped_malformed_fatal_witness :
  @step every_30 broker_two_streams
       (EvFrame 0%nat (Some (Data 7%nat [Byte.x68; Byte.x69])) 1500)
  = write_log (LogDroppedFrame 0%nat (Data 7%nat [Byte.x68; Byte.x69]))
              broker_two_streams
  /\ sessions (@step every_30 broker_two_streams (EvFrame 0%nat None 1500))
       !! 0%nat = Some (torn_down alice_session).
Proof.
  destruct (@dead_stream_frame_dropped_malformed_fatal every_30
              broker_two_streams 0%nat alice_session 1500
              alice_session_lookup eq_refl) as [Hdrop (Hfatal & _)].
  split; [|exact Hfatal].
  apply (Hdrop (Data 7%nat [Byte.x68; Byte.x69]) 7%nat eq_refl).
  left. vm_compute. reflexivity.
Defined.


Lemma subdomain_conflict_rejected_witness :
  UpdateTunnelSubdomain store_with_two_tunnels 2 "alice" 120
  = (store_with_two_tunnels, Some ErrSubdomainTaken) /\
  snd (handshake broker_one_session store_renamed request_other 2000)
  = Rejected BindConflict /\
  lookup (SubdomainName "alice")
         (registry (@step every_30 broker_one_session
                         (EvHandshake store_renamed request_other 2000)))
  = Some 0%nat.
Proof.
  destruct (@subdomain_conflict_rejected every_30) as [Hstore Hbroker].
  split.
  - destruct (Hstore store_with_two_tunnels) as [_ Htaken].
    { repeat apply Database.store_exec. apply Database.store_empty. }
    apply (Htaken alice_tunnel bob_tunnel 120).
    + left. reflexivity.
    + right. left. reflexivity.
    + discriminate.
  - destruct (Hbroker broker_one_session store_renamed request_other 2000
                      (mkTunnel 2 8 "Second" "s3cr3t" "alice" 0 110 130)
                      0%nat (set_state Active
                               (new_session request_alice (SubdomainName "alice") 1000)))
      as (Hrej & Hreg & _ & Hheld).
    + apply reachable_one_session.
    + vm_compute. reflexivity.
    + reflexivity.
    + reflexivity.
    + reflexivity.
    + reflexivity.
    + discriminate.
    + split; [exact Hrej|]. now rewrite Hreg.
Defined.

End BrokerFacts.

(* ===================================================================== *)
(** * The tunnel store: creating, renaming, deleting, looking up         *)
(* ===================================================================== *)

Module DatabaseMore.

Import Database DatabaseFacts DatabaseHistory Scenario Cases.
Local Open Scope string_scope.

(** ** Ids *)

Lemma In_update_rows where_ set now rows t' :
  In t' (update_rows where_ set now rows) <->
  exists t, In t rows /\
    t' = if where_ t
         then mkTunnel (ID (set t)) (PrincipalID (set t)) (Name (set t))
                       (Token (set t)) (Subdomain (set t)) (LastTCPPort (set t))
                       (CreatedAt (set t)) now
         else t.
Proof.
  unfold update_rows. rewrite in_map_iff. split.
  - intros (t & <- & Hin). now exists t.
  - intros (t & Hin & ->). now exists t.
Qed.

Lemma same_tunnel_refl t : same_tunnel t t.
Proof. now repeat split. Qed.

Lemma same_tunnel_trans t1 t2 t3 :
  same_tunnel t1 t2 -> same_tunnel t2 t3 -> same_tunnel t1 t3.
Proof. unfold same_tunnel. intuition congruence. Qed.

Lemma descends_refl db : descends db db.
Proof.
  split; [lia|]. intros t' Hin. left. exists t'. split; [exact Hin|apply same_tunnel_refl].
Qed.

Lemma descends_exec db s : descends db (exec db s).
Proof.
  destruct s as [opts now|id port now|id subdomain now|id pid]; cbn [exec].
  - unfold CreateTunnel. destruct (existsb _ _); cbn; (split; cbn; [lia|]).
    + intros t' Hin. left. exists t'. split; [exact Hin|apply same_tunnel_refl].
    + intros t' Hin. apply in_app_or in Hin as [Hin|[<-|[]]].
      * left. exists t'. split; [exact Hin|apply same_tunnel_refl].
      * right. cbn. lia.
  - cbn. split; cbn; [lia|]. intros t' Hin. left.
    apply In_update_rows in Hin as (t & Hin & ->). exists t. split; [exact Hin|].
    destruct (id_is id t); now repeat split.
  - unfold UpdateTunnelSubdomain. destruct (subdomain_taken db id subdomain); cbn.
    + apply descends_refl.
    + split; cbn; [lia|]. intros t' Hin. left.
      apply In_update_rows in Hin as (t & Hin & ->). exists t. split; [exact Hin|].
      destruct (id_is id t); now repeat split.
  - cbn. split; cbn; [lia|]. intros t' Hin. left. apply filter_In in Hin as [Hin _].
    exists t'. split; [exact Hin|apply same_tunnel_refl].
Qed.

Lemma tunnel_ids_in_range db :
  reachable_store db ->
  (0 < tunnels_id_seq db)%Z /\
  forall t, In t (tunnels db) -> (0 < ID t < tunnels_id_seq db)%Z.
Proof.
  induction 1 as [|db s _ [Hseq IH]]; [split; [reflexivity|intros t []]|].
  destruct (descends_exec db s) as [Hle Hrows]. split; [lia|].
  intros t' Hin. destruct (Hrows t' Hin) as [(t & Hin0 & Hsame)|Hnew]; [|lia].
  destruct Hsame as [-> _]. specialize (IH t Hin0). lia.
Qed.

Lemma descends_trans db1 db2 db3 :
  (forall t, In t (tunnels db2) -> (ID t < tunnels_id_seq db2)%Z) ->
  descends db1 db2 -> descends db2 db3 -> descends db1 db3.
Proof.
  intros Hrange [Hle12 H12] [Hle23 H23]. split; [lia|].
  intros t3 Hin3. destruct (H23 t3 Hin3) as [(t2 & Hin2 & Hs23)|Hnew]; [|right; lia].
  destruct (H12 t2 Hin2) as [(t1 & Hin1 & Hs12)|Hnew].
  - left. exists t1. split; [exact Hin1|]. now apply (same_tunnel_trans t1 t2 t3).
  - right. destruct Hs23 as [-> _]. specialize (Hrange t2 Hin2). lia.
Qed.

Lemma descends_run db ss :
  reachable_store db -> descends db (fold_left exec ss db).
Proof.
  revert db. induction ss as [|s ss IH]; intros db Hr; [apply descends_refl|].
  cbn [fold_left].
  assert (reachable_store (exec db s)) as Hr' by now constructor.
  apply (descends_trans db (exec db s)).
  - intros t Hin. now apply (tunnel_ids_in_range _ Hr').
  - apply descends_exec.
  - now apply IH.
Qed.

(** X1.  An id always denotes the same tunnel: in a reachable store ids
    are positive, and whatever statements run afterwards, a row that
    carries the id of a present row has its owner, name, token and creation
    time; an id is never given to another tunnel, also after a delete. *)
Theorem tunnel_ids_are_never_reused db ss t t' :
  reachable_store db ->
  In t (tunnels db) -> In t' (tunnels (fold_left exec ss db)) -> ID t' = ID t ->
  (0 < ID t)%Z /\ PrincipalID t' = PrincipalID t /\ Name t' = Name t
  /\ Token t' = Token t /\ CreatedAt t' = CreatedAt t.
Proof.
  intros Hr Hin Hin' Hid.
  destruct (tunnel_ids_in_range db Hr) as [_ Hrange].
  split; [now apply Hrange|].
  destruct (descends_run db ss Hr) as [_ Hrows].
  destruct (Hrows t' Hin') as [(t0 & Hin0 & Hsame)|Hnew].
  - assert (t0 = t) as ->.
    { apply (NoDup_map_inj ID (tunnels db)); auto.
      - now apply reachable_constraints.
      - destruct Hsame as [E _]. congruence. }
    destruct Hsame as (_ & ? & ? & ? & ?). auto.
  - specialize (Hrange t Hin). lia.
Qed.

Lemma tunnel_ids_are_never_reused_witness :
  In alice_tunnel (tunnels store_with_two_tunnels) /\
  PrincipalID (mkTunnel 1 7 "Default" "t0k3n" "carol" 0 100 120) = 7.
Proof.
  split; [left; reflexivity|].
  apply (tunnel_ids_are_never_reused
           store_with_two_tunnels
           [SUpdateSubdomain 1 "carol" 120; SUpdateSubdomain 2 "alice" 130]
           alice_tunnel (mkTunnel 1 7 "Default" "t0k3n" "carol" 0 100 120)).
  - repeat apply store_exec. apply store_empty.
  - left. reflexivity.
  - left. reflexivity.
  - reflexivity.
Defined.

(** ** Creating *)

Lemma create_fresh db opts :
  (forall u, In u (tunnels db) ->
     ID u <> tunnels_id_seq db /\ Token u <> optToken opts
     /\ Subdomain u <> optSubdomain opts) ->
  existsb (fun u => id_is (tunnels_id_seq db) u || token_is (optToken opts) u
                    || subdomain_is (optSubdomain opts) u) (tunnels db) = false.
Proof.
  intros H. destruct (existsb _ _) eqn:E; [|reflexivity].
  apply existsb_exists in E as (u & Hin & Hu).
  destruct (H u Hin) as (H1 & H2 & H3).
  unfold id_is, token_is, subdomain_is in Hu.
  apply Z.eqb_neq in H1. apply String.eqb_neq in H2, H3.
  now rewrite H1, H2, H3 in Hu.
Qed.

Lemma create_taken db opts u :
  In u (tunnels db) ->
  Token u = optToken opts \/ Subdomain u = optSubdomain opts ->
  existsb (fun u => id_is (tunnels_id_seq db) u || token_is (optToken opts) u
                    || subdomain_is (optSubdomain opts) u) (tunnels db) = true.
Proof.
  intros Hin H. apply existsb_exists. exists u. split; [exact Hin|].
  unfold token_is, subdomain_is.
  destruct H as [->| ->]; rewrite String.eqb_refl; now rewrite ?orb_true_r.
Qed.

(** X2.  In a reachable store, [CreateTunnel] with a token and a subdomain
    that no tunnel has succeeds: the tunnel gets the next id, no TCP port,
    and can at once be fetched by its token and by its id; every tunnel that
    was there can still be fetched, unchanged. *)
Theorem CreateTunnel_then_get db opts now :
  reachable_store db ->
  (forall u, In u (tunnels db) ->
     Token u <> optToken opts /\ Subdomain u <> optSubdomain opts) ->
  let t := mkTunnel (tunnels_id_seq db) (optPrincipalID opts) (optName opts)
                    (optToken opts) (optSubdomain opts) 0 now now in
  let db' := fst (CreateTunnel db opts now) in
  snd (CreateTunnel db opts now) = (t, None) /\
  GetTunnelByToken db' (optToken opts) = (t, None) /\
  GetTunnelByID db' (tunnels_id_seq db) = (t, None) /\
  (forall u, In u (tunnels db) ->
     GetTunnelByID db' (ID u) = (u, None)
     /\ GetTunnelByToken db' (Token u) = (u, None)).
Proof.
  intros Hr Hfree t db'.
  destruct (tunnel_ids_in_range db Hr) as [_ Hrange].
  assert (tunnels db' = (tunnels db ++ [t])%list /\ snd (CreateTunnel db opts now) = (t, None))
    as [Hrows Hres].
  { subst db'. unfold CreateTunnel. rewrite create_fresh; [now split|].
    intros u Hu. destruct (Hfree u Hu). specialize (Hrange u Hu).
    repeat split; auto. lia. }
  assert (constraints db') as [Hid Htok _].
  { apply (constraints_exec db (SCreate opts now)). now apply reachable_constraints. }
  assert (In t (tunnels db')) as Hin by (rewrite Hrows; apply in_or_app; right; now left).
  split; [exact Hres|]. split; [|split].
  - now apply (GetTunnelByToken_found db' t).
  - now apply (GetTunnelByID_found db' t).
  - intros u Hu.
    assert (In u (tunnels db')) by (rewrite Hrows; apply in_or_app; now left).
    split; [now apply GetTunnelByID_found|now apply GetTunnelByToken_found].
Qed.

Lemma CreateTunnel_then_get_witness :
  GetTunnelByToken store_with_two_tunnels "s3cr3t" = (bob_tunnel, None)
  /\ GetTunnelByID store_with_two_tunnels 1 = (alice_tunnel, None).
Proof.
  destruct (CreateTunnel_then_get store_with_one_tunnel
              (mkCreateTunnelOptions 8 "Second" "s3cr3t" "bob") 110)
    as (_ & Htok & _ & Hold).
  - apply store_exec, store_empty.
  - intros u [<-|[]]. split; discriminate.
  - split; [exact Htok|]. apply (Hold alice_tunnel). left. reflexivity.
Defined.

(** X3.  In a reachable store [CreateTunnel] fails exactly when the token
    or the subdomain is already some tunnel's; it then returns the
    unique-violation error (SQLSTATE 23505) and leaves every row as it
    was. *)
Theorem CreateTunnel_fails_iff_taken db opts now :
  reachable_store db ->
  (snd (snd (CreateTunnel db opts now)) <> None <->
   exists u, In u (tunnels db)
             /\ (Token u = optToken opts \/ Subdomain u = optSubdomain opts)) /\
  (snd (snd (CreateTunnel db opts now)) <> None ->
   snd (snd (CreateTunnel db opts now)) = Some (PgError "23505")
   /\ tunnels (fst (CreateTunnel db opts now)) = tunnels db).
Proof.
  intros Hr. destruct (tunnel_ids_in_range db Hr) as [_ Hrange].
  unfold CreateTunnel.
  destruct (existsb _ (tunnels db)) eqn:E; cbn.
  - split; [|now split]. split; [intros _|discriminate].
    apply existsb_exists in E as (u & Hin & Hu). exists u. split; [exact Hin|].
    unfold id_is, token_is, subdomain_is in Hu.
    apply orb_true_iff in Hu as [Hu|Hu]; [|right; now apply String.eqb_eq].
    apply orb_true_iff in Hu as [Hu|Hu]; [|left; now apply String.eqb_eq].
    apply Z.eqb_eq in Hu. specialize (Hrange u Hin). lia.
  - split; [|intros H; now contradiction H]. split; [intros H; now contradiction H|].
    intros (u & Hin & Hu). rewrite (create_taken db opts u Hin Hu) in E. discriminate.
Qed.

Lemma CreateTunnel_fails_iff_taken_witness :
  snd (snd (CreateTunnel store_with_one_tunnel
              (mkCreateTunnelOptions 8 "Second" "s3cr3t" "alice") 110))
  = Some (PgError "23505").
Proof.
  destruct (CreateTunnel_fails_iff_taken store_with_one_tunnel
              (mkCreateTunnelOptions 8 "Second" "s3cr3t" "alice") 110)
    as [Hiff Hfail].
  - apply store_exec, store_empty.
  - apply Hfail. apply Hiff. exists alice_tunnel.
    split; [left; reflexivity|right; reflexivity].
Defined.

(** ** Deleting *)

Lemma GetTunnelByID_gone db id :
  (forall u, In u (tunnels db) -> ID u <> id) ->
  GetTunnelByID db id = (zeroTunnel, Some ErrRecordNotFound).
Proof.
  intros H. apply First_not_found. intros u Hu. unfold id_is.
  apply Z.eqb_neq. now apply H.
Qed.

(** X4.  In a reachable store, [DeleteTunnelByID] with the id of a tunnel
    and the id of its principal removes that tunnel and nothing else:
    afterwards neither its id nor its token is found, and every other
    tunnel is fetched unchanged. *)
Theorem DeleteTunnelByID_by_owner db t :
  reachable_store db -> In t (tunnels db) ->
  let db' := fst (DeleteTunnelByID db (ID t) (PrincipalID t)) in
  snd (DeleteTunnelByID db (ID t) (PrincipalID t)) = None /\
  GetTunnelByID db' (ID t) = (zeroTunnel, Some ErrRecordNotFound) /\
  GetTunnelByToken db' (Token t) = (zeroTunnel, Some ErrRecordNotFound) /\
  (forall u, In u (tunnels db) -> u <> t ->
     GetTunnelByID db' (ID u) = (u, None)).
Proof.
  intros Hr Hin db'.
  pose proof (reachable_constraints db Hr) as [Hid Htok _].
  assert (constraints db') as [Hid' _ _].
  { apply (constraints_exec db (SDelete (ID t) (PrincipalID t))).
    now apply reachable_constraints. }
  assert (forall u, In u (tunnels db') <-> In u (tunnels db) /\ u <> t) as Hrows.
  { intros u. subst db'. cbn. rewrite filter_In. split.
    - intros [Hu Hp]. split; [exact Hu|]. intros ->.
      unfold id_is in Hp. now rewrite !Z.eqb_refl in Hp.
    - intros [Hu Hne]. split; [exact Hu|].
      apply negb_true_iff, andb_false_iff. left. unfold id_is. apply Z.eqb_neq.
      intros E. apply Hne. now apply (NoDup_map_inj ID (tunnels db)). }
  split; [reflexivity|]. split; [|split].
  - apply GetTunnelByID_gone. intros u Hu E. apply Hrows in Hu as [Hu Hne].
    apply Hne. now apply (NoDup_map_inj ID (tunnels db)).
  - apply GetTunnelByToken_not_found. intros u Hu E. apply Hrows in Hu as [Hu Hne].
    apply Hne. now apply (NoDup_map_inj Token (tunnels db)).
  - intros u Hu Hne. apply GetTunnelByID_found; [exact Hid'|]. now apply Hrows.
Qed.

Lemma DeleteTunnelByID_by_owner_witness :
  GetTunnelByID (fst (DeleteTunnelByID store_with_two_tunnels 1 7)) 1
  = (zeroTunnel, Some ErrRecordNotFound)
  /\ GetTunnelByID (fst (DeleteTunnelByID store_with_two_tunnels 1 7)) 2
     = (bob_tunnel, None).
Proof.
  destruct (DeleteTunnelByID_by_owner store_with_two_tunnels alice_tunnel)
    as (_ & Hgone & _ & Hrest).
  - repeat apply store_exec. apply store_empty.
  - left. reflexivity.
  - split; [exact Hgone|]. apply (Hrest bob_tunnel).
    + right. left. reflexivity.
    + discriminate.
Defined.

(** ** Renaming and allocating *)

Lemma subdomain_free db id subdomain :
  (forall u, In u (tunnels db) -> ID u <> id -> Subdomain u <> subdomain) ->
  subdomain_taken db id subdomain = false.
Proof.
  intros H. unfold subdomain_taken. apply andb_false_iff. right.
  destruct (existsb _ _) eqn:E; [|reflexivity].
  apply existsb_exists in E as (u & Hin & Hu).
  apply andb_true_iff in Hu as [H1 H2]. unfold id_is, subdomain_is in *.
  apply negb_true_iff, Z.eqb_neq in H1. apply String.eqb_eq in H2.
  now destruct (H u Hin H1).
Qed.

(** X5.  In a reachable store, [UpdateTunnelSubdomain] of a tunnel to a
    subdomain that no other tunnel has succeeds (also when it is the
    tunnel's own); the tunnel is then fetched, by id and by token, with the
    new subdomain and all else but [UpdatedAt] as before, the other tunnels
    are untouched, and the name given up is free: any other tunnel can take
    it. *)
Theorem UpdateTunnelSubdomain_renames db t subdomain now :
  reachable_store db -> In t (tunnels db) ->
  (forall u, In u (tunnels db) -> ID u <> ID t -> Subdomain u <> subdomain) ->
  let db' := fst (UpdateTunnelSubdomain db (ID t) subdomain now) in
  snd (UpdateTunnelSubdomain db (ID t) subdomain now) = None /\
  GetTunnelByID db' (ID t) = (renamed t subdomain now, None) /\
  GetTunnelByToken db' (Token t) = (renamed t subdomain now, None) /\
  (forall u, In u (tunnels db) -> ID u <> ID t ->
     GetTunnelByID db' (ID u) = (u, None)) /\
  (Subdomain t <> subdomain ->
   forall u now', In u (tunnels db) -> ID u <> ID t ->
     snd (UpdateTunnelSubdomain db' (ID u) (Subdomain t) now') = None).
Proof.
  intros Hr Hin Hfree db'.
  pose proof (reachable_constraints db Hr) as [Hid Htok Hsub].
  pose proof (subdomain_free db (ID t) subdomain Hfree) as Hnot.
  assert (constraints db') as [Hid' Htok' _].
  { apply (constraints_exec db (SUpdateSubdomain (ID t) subdomain now)).
    now apply reachable_constraints. }
  assert (forall u', In u' (tunnels db') <->
            exists u, In u (tunnels db)
              /\ u' = if id_is (ID t) u then renamed u subdomain now else u) as Hrows.
  { intros u'. subst db'. unfold UpdateTunnelSubdomain. rewrite Hnot. cbn.
    apply In_update_rows. }
  assert (In (renamed t subdomain now) (tunnels db')) as Hin'.
  { apply Hrows. exists t. split; [exact Hin|]. unfold id_is. now rewrite Z.eqb_refl. }
  assert (forall u, In u (tunnels db) -> ID u <> ID t -> In u (tunnels db')) as Hkeep.
  { intros u Hu Hne. apply Hrows. exists u. split; [exact Hu|].
    unfold id_is. now apply Z.eqb_neq in Hne as ->. }
  split; [unfold UpdateTunnelSubdomain; now rewrite Hnot|].
  split; [now apply (GetTunnelByID_found db' (renamed t subdomain now))|].
  split; [now apply (GetTunnelByToken_found db' (renamed t subdomain now))|].
  split; [intros u Hu Hne; apply GetTunnelByID_found; auto|].
  intros Hold u now' Hu Hne.
  unfold UpdateTunnelSubdomain. rewrite subdomain_free; [reflexivity|].
  intros v' Hv' Hvid Hvs. apply Hrows in Hv' as (v & Hv & ->).
  unfold id_is in *. destruct (ID v =? ID t)%Z eqn:E.
  - cbn in Hvs. congruence.
  - apply Z.eqb_neq in E. apply E. f_equal.
    now apply (NoDup_map_inj Subdomain (tunnels db)).
Qed.

Lemma UpdateTunnelSubdomain_renames_witness :
  GetTunnelByID (fst (UpdateTunnelSubdomain store_with_two_tunnels 1 "carol" 120)) 1
  = (mkTunnel 1 7 "Default" "t0k3n" "carol" 0 100 120, None)
  /\ snd (UpdateTunnelSubdomain
            (fst (UpdateTunnelSubdomain store_with_two_tunnels 1 "carol" 120))
            2 "alice" 130) = None.
Proof.
  destruct (UpdateTunnelSubdomain_renames store_with_two_tunnels alice_tunnel "carol" 120)
    as (_ & Hget & _ & _ & Hfreed).
  - repeat apply store_exec. apply store_empty.
  - left. reflexivity.
  - intros u [<-|[<-|[]]] Hne; [now contradiction Hne|discriminate].
  - split; [exact Hget|]. apply (Hfreed ltac:(discriminate) bob_tunnel 130).
    + right. left. reflexivity.
    + discriminate.
Defined.

(** X6.  In a reachable store, the port persisted for a tunnel is the one
    read back when its token is resolved: the record returned has the new
    [LastTCPPort] and is otherwise the stored one, [UpdatedAt] apart. *)
Theorem UpdateTunnelLastTCPPort_then_resolve db t port now :
  reachable_store db -> In t (tunnels db) ->
  GetTunnelByToken (fst (UpdateTunnelLastTCPPort db (ID t) port now)) (Token t)
  = (with_port t port now, None).
Proof.
  intros Hr Hin.
  assert (constraints (fst (UpdateTunnelLastTCPPort db (ID t) port now)))
    as [_ Htok' _].
  { apply (constraints_exec db (SUpdateLastTCPPort (ID t) port now)).
    now apply reachable_constraints. }
  apply (GetTunnelByToken_found _ (with_port t port now)); [exact Htok'|].
  cbn. apply In_update_rows. exists t. split; [exact Hin|].
  unfold id_is. now rewrite Z.eqb_refl.
Qed.

Lemma UpdateTunnelLastTCPPort_then_resolve_witness :
  LastTCPPort
    (fst (GetTunnelByToken
            (fst (UpdateTunnelLastTCPPort store_with_two_tunnels 2 40123 200))
            "s3cr3t")) = 40123.
Proof.
  assert (reachable_store store_with_two_tunnels) as Hr
    by (repeat apply store_exec; apply store_empty).
  exact (f_equal (fun r => LastTCPPort (fst r))
           (UpdateTunnelLastTCPPort_then_resolve store_with_two_tunnels bob_tunnel
              40123 200 Hr (or_intror (or_introl eq_refl)))).
Defined.

(** X7.  An update addressed to an id that no tunnel has is a silent no-op:
    both [UpdateTunnelLastTCPPort] and [UpdateTunnelSubdomain] return a nil
    error and leave the store as it is, the latter even when the subdomain
    asked for is another tunnel's. *)
Theorem update_of_missing_id_is_silent db id :
  (forall u, In u (tunnels db) -> ID u <> id) ->
  (forall port now, UpdateTunnelLastTCPPort db id port now = (db, None)) /\
  (forall subdomain now, UpdateTunnelSubdomain db id subdomain now = (db, None)).
Proof.
  intros Hmiss.
  assert (forall set now, update_rows (id_is id) set now (tunnels db) = tunnels db) as Hsame.
  { intros set now. apply update_rows_no_match. intros u Hu.
    unfold id_is. apply Z.eqb_neq. now apply Hmiss. }
  split.
  - intros port now. unfold UpdateTunnelLastTCPPort. rewrite Hsame. now destruct db.
  - intros subdomain now. unfold UpdateTunnelSubdomain.
    replace (subdomain_taken db id subdomain) with false.
    + rewrite Hsame. now destruct db.
    + symmetry. unfold subdomain_taken. apply andb_false_iff. left.
      destruct (existsb _ _) eqn:E; [|reflexivity].
      apply existsb_exists in E as (u & Hu & Hid). unfold id_is in Hid.
      apply Z.eqb_eq in Hid. now destruct (Hmiss u Hu).
Qed.

Lemma update_of_missing_id_is_silent_witness :
  UpdateTunnelSubdomain store_with_two_tunnels 99 "alice" 300
  = (store_with_two_tunnels, None).
Proof.
  destruct (update_of_missing_id_is_silent store_with_two_tunnels 99) as [_ H].
  - intros u [<-|[<-|[]]]; discriminate.
  - apply H.
Defined.

End DatabaseMore.

(* ===================================================================== *)
(** * The principals table: theorems                                     *)
(* ===================================================================== *)

Module PrincipalStoreFacts.

Import Principals PrincipalStore DatabaseFacts Cases.
Local Open Scope string_scope.

Lemma first_principal_cons p rows :
  first_principal (p :: rows)
  = match first_principal rows with
    | None => Some p
    | Some q => if (ID p <=? ID q)%Z then Some p else Some q
    end.
Proof. reflexivity. Qed.

Lemma first_principal_In rows p : first_principal rows = Some p -> In p rows.
Proof.
  revert p. induction rows as [|r rows IH]; intros p H; [discriminate|].
  rewrite first_principal_cons in H. destruct (first_principal rows) as [q|].
  - destruct (ID r <=? ID q)%Z; inversion H; subst; [now left|right; now apply IH].
  - inversion H. now left.
Qed.

Lemma first_principal_None rows : first_principal rows = None -> rows = [].
Proof.
  destruct rows as [|r rows]; [reflexivity|]. rewrite first_principal_cons.
  destruct (first_principal rows) as [q|]; [|discriminate].
  destruct (ID r <=? ID q)%Z; discriminate.
Qed.

(** The one row that a unique key selects is the row [First] returns. *)
Lemma first_principal_unique {K} (key : Principal -> K) (test : Principal -> bool)
      rows p :
  List.NoDup (map key rows) -> In p rows -> test p = true ->
  (forall q, test q = true -> key q = key p) ->
  first_principal (List.filter test rows) = Some p.
Proof.
  intros Hnd Hin Htest Hkey.
  destruct (first_principal (List.filter test rows)) as [q|] eqn:E.
  - apply first_principal_In, filter_In in E as [Hq Hqt].
    f_equal. apply (NoDup_map_inj key rows); auto.
  - apply first_principal_None in E.
    assert (In p (List.filter test rows)) as H by (apply filter_In; now split).
    rewrite E in H. destruct H.
Qed.

Lemma first_principal_absent (test : Principal -> bool) rows :
  (forall q, In q rows -> test q = false) ->
  first_principal (List.filter test rows) = None.
Proof.
  intros H. destruct (first_principal _) as [q|] eqn:E; [|reflexivity].
  apply first_principal_In, filter_In in E as [Hq Hqt].
  rewrite (H q Hq) in Hqt. discriminate.
Qed.

Lemma table_ok_empty : table_ok no_principals.
Proof. split; [intros p []|constructor|constructor]. Qed.

Lemma table_ok_upsert tb opts now :
  table_ok tb -> (0 < principals_id_seq tb)%Z ->
  table_ok (fst (UpsertPrincipal tb opts now))
  /\ (0 < principals_id_seq (fst (UpsertPrincipal tb opts now)))%Z.
Proof.
  intros [Hrange Hid Hident] Hseq. unfold UpsertPrincipal.
  destruct (first_principal _) as [found|] eqn:E; [now split|].
  destruct (existsb _ _) eqn:Ex; cbn.
  - split; [|lia]. split; cbn; auto. intros p Hp. specialize (Hrange p Hp). lia.
  - split; [|lia]. split; cbn.
    + intros p Hp. apply in_app_or in Hp as [Hp|[<-|[]]]; [|cbn; lia].
      specialize (Hrange p Hp). lia.
    + apply NoDup_map_snoc; [exact Hid|]. intros q Hq. cbn.
      specialize (Hrange q Hq). lia.
    + apply NoDup_map_snoc; [exact Hident|]. intros q Hq. cbn. intros Heq.
      assert (In q (List.filter (identifier_is (optIdentifier opts)) (principals tb))) as Hf.
      { apply filter_In. split; [exact Hq|]. unfold identifier_is.
        now apply String.eqb_eq. }
      apply first_principal_None in E. rewrite E in Hf. destruct Hf.
Qed.

Lemma reachable_table_ok tb :
  reachable_table tb -> table_ok tb /\ (0 < principals_id_seq tb)%Z.
Proof.
  induction 1 as [|tb opts now _ [IH Hseq]].
  - split; [apply table_ok_empty|reflexivity].
  - now apply table_ok_upsert.
Qed.

Lemma GetPrincipalByID_found tb p :
  table_ok tb -> In p (principals tb) ->
  GetPrincipalByID tb (ID p) = (p, None).
Proof.
  intros [_ Hid _] Hin. unfold GetPrincipalByID.
  rewrite (first_principal_unique ID (principal_id_is (ID p)) _ p); auto.
  - unfold principal_id_is. apply Z.eqb_refl.
  - intros q Hq. unfold principal_id_is in Hq. now apply Z.eqb_eq.
Qed.

Lemma UpsertPrincipal_found tb p displayName now :
  reachable_table tb -> In p (principals tb) ->
  UpsertPrincipal tb (mkUpsertPrincipalOptions (Identifier p) displayName) now
  = (tb, (p, None)).
Proof.
  intros Hr Hin. destruct (reachable_table_ok tb Hr) as [[_ _ Hident] _].
  unfold UpsertPrincipal. cbn [optIdentifier].
  rewrite (first_principal_unique Identifier (identifier_is (Identifier p)) _ p); auto.
  - unfold identifier_is. apply String.eqb_refl.
  - intros q Hq. unfold identifier_is in Hq. now apply String.eqb_eq.
Qed.

(** X8.  Upserting an identifier that the table already has returns the
    stored principal, with the id and the display name it was first given,
    and writes nothing: the display name of the options is dropped, and the
    principal is still the one found by its id. *)
Theorem UpsertPrincipal_existing tb p displayName now :
  reachable_table tb -> In p (principals tb) ->
  UpsertPrincipal tb (mkUpsertPrincipalOptions (Identifier p) displayName) now
  = (tb, (p, None))
  /\ GetPrincipalByID tb (ID p) = (p, None).
Proof.
  intros Hr Hin. split; [now apply UpsertPrincipal_found|].
  apply GetPrincipalByID_found; [|exact Hin]. now apply reachable_table_ok.
Qed.

Lemma UpsertPrincipal_existing_witness :
  UpsertPrincipal alice_table
    (mkUpsertPrincipalOptions "alice@example.com" "Alice Liddell") 500
  = (alice_table, (alice, None))
  /\ GetPrincipalByID alice_table 1 = (alice, None).
Proof.
  apply (UpsertPrincipal_existing alice_table alice "Alice Liddell" 500).
  - apply table_upsert, table_empty.
  - left. reflexivity.
Defined.

(** X9.  Upserting an identifier that the table does not have inserts a
    principal with the next id, which is positive; that principal is then
    found by its id, the principals that were there are still found by
    theirs, and upserting the identifier again returns the same
    principal. *)
Theorem UpsertPrincipal_new tb opts now :
  reachable_table tb ->
  (forall q, In q (principals tb) -> Identifier q <> optIdentifier opts) ->
  let p := mkPrincipal (principals_id_seq tb) (optIdentifier opts)
                       (optDisplayName opts) now now in
  let tb' := fst (UpsertPrincipal tb opts now) in
  snd (UpsertPrincipal tb opts now) = (p, None) /\
  (0 < ID p)%Z /\
  GetPrincipalByID tb' (ID p) = (p, None) /\
  (forall q, In q (principals tb) -> GetPrincipalByID tb' (ID q) = (q, None)) /\
  (forall displayName now',
     UpsertPrincipal tb' (mkUpsertPrincipalOptions (optIdentifier opts) displayName) now'
     = (tb', (p, None))).
Proof.
  intros Hr Hnew p tb'.
  destruct (reachable_table_ok tb Hr) as [[Hrange Hid Hident] Hseq].
  assert (reachable_table tb') as Hr' by now constructor.
  destruct (reachable_table_ok tb' Hr') as [Hok' _].
  assert (principals tb' = (principals tb ++ [p])%list
          /\ snd (UpsertPrincipal tb opts now) = (p, None)) as [Hrows Hres].
  { subst tb'. unfold UpsertPrincipal.
    rewrite first_principal_absent.
    - replace (existsb _ _) with false; [now split|].
      symmetry. destruct (existsb _ _) eqn:E; [|reflexivity].
      apply existsb_exists in E as (q & Hq & Hqid). unfold principal_id_is in Hqid.
      apply Z.eqb_eq in Hqid. specialize (Hrange q Hq). lia.
    - intros q Hq. unfold identifier_is. apply String.eqb_neq. now apply Hnew. }
  assert (In p (principals tb')) as Hin by (rewrite Hrows; apply in_or_app; right; now left).
  split; [exact Hres|]. split; [exact Hseq|]. split; [|split].
  - now apply (GetPrincipalByID_found tb' p).
  - intros q Hq. apply GetPrincipalByID_found; [exact Hok'|].
    rewrite Hrows. apply in_or_app. now left.
  - intros displayName now'.
    now apply (UpsertPrincipal_found tb' p displayName now').
Qed.

Lemma UpsertPrincipal_new_witness :
  snd (UpsertPrincipal no_principals
         (mkUpsertPrincipalOptions "alice@example.com" "Alice") 90)
  = (alice, None)
  /\ GetPrincipalByID alice_table 1 = (alice, None).
Proof.
  destruct (UpsertPrincipal_new no_principals
              (mkUpsertPrincipalOptions "alice@example.com" "Alice") 90)
    as (Hres & _ & Hget & _).
  - apply table_empty.
  - intros q [].
  - split; [exact Hres|exact Hget].
Defined.

End PrincipalStoreFacts.

(* ===================================================================== *)
(** * The client: more on addresses, [actionInit] and [ApplyProfile]     *)
(* ===================================================================== *)

Module ClientMore.

Import GoStrings Client ClientInit GoStringsFacts ClientFacts Scenario Cases.
Local Open Scope string_scope.

Lemma localhost_has_scheme port :
  Contains (localhost port) "://" = true
  /\ String.prefix "http://" (localhost port) = true.
Proof.
  unfold localhost.
  change ("http://localhost:" ++ FormatInt port)
    with (String "h" (String "t" (String "t" (String "p"
           (String ":" (String "/" (String "/"
              ("localhost:" ++ FormatInt port)))))))).
  split; cbn; now rewrite prefix_empty.
Qed.

Lemma with_scheme_has_scheme addr :
  Contains ("http://" ++ addr) "://" = true
  /\ String.prefix "http://" ("http://" ++ addr) = true.
Proof.
  change ("http://" ++ addr)
    with (String "h" (String "t" (String "t" (String "p"
           (String ":" (String "/" (String "/" addr))))))).
  split; cbn; now rewrite prefix_empty.
Qed.

(** X10.  The address derived from a non-empty input always names a
    scheme, and the scheme is [http] whenever the input named none. *)
Theorem deriveHTTPForwardAddress_has_scheme addr :
  addr <> "" ->
  Contains (deriveHTTPForwardAddress addr) "://" = true /\
  (Contains addr "://" = false ->
   String.prefix "http://" (deriveHTTPForwardAddress addr) = true).
Proof.
  intros Hne. destruct addr as [|c addr1]; [congruence|].
  unfold deriveHTTPForwardAddress.
  destruct (Atoi (String c addr1)); [split; [|intros _]; apply localhost_has_scheme|].
  destruct (Atoi addr1); [split; [|intros _]; apply localhost_has_scheme|].
  destruct (Contains (String c addr1) "://") eqn:Hc; cbn [negb].
  - split; [exact Hc|discriminate].
  - split; [|intros _]; apply with_scheme_has_scheme.
Qed.

Lemma deriveHTTPForwardAddress_has_scheme_witness :
  Contains (deriveHTTPForwardAddress "example.test:3000") "://" = true /\
  String.prefix "http://" (deriveHTTPForwardAddress "example.test:3000") = true.
Proof.
  destruct (deriveHTTPForwardAddress_has_scheme "example.test:3000")
    as [Hscheme Hhttp]; [discriminate|].
  split; [exact Hscheme|apply Hhttp; reflexivity].
Defined.

Lemma override_override p cur : override p (override p cur) = override p cur.
Proof. unfold override. now destruct (String.eqb p ""). Qed.

(** X11.  Applying a profile a second time changes nothing: when
    [ApplyProfile] returns, the same call on the configuration it leaves
    returns the same error and leaves that configuration as it is. *)
Theorem ApplyProfile_twice c name c' err :
  ApplyProfile c name = Returned (c', err) ->
  ApplyProfile c' name = Returned (c', err).
Proof.
  unfold ApplyProfile. destruct (String.eqb name "") eqn:Hn.
  - intros H. inversion H; subst. reflexivity.
  - destruct (Profiles c !! name) as [[profile|]|] eqn:Hl; intros H;
      inversion H; subst; cbn [Profiles Default]; rewrite Hl; [|reflexivity].
    cbn [RemoteAddr ForwardAddr Token DynamicForwards].
    now rewrite !override_override.
Qed.

Lemma ApplyProfile_twice_witness :
  ApplyProfile
    (mkConfig client_profile_a {[ "dev" := Some client_profile_a ]}) "dev"
  = Returned (mkConfig client_profile_a {[ "dev" := Some client_profile_a ]}, None).
Proof.
  apply (ApplyProfile_twice
           (mkConfig client_profile_b {[ "dev" := Some client_profile_a ]}) "dev").
  vm_compute. reflexivity.
Defined.

Section Load.

Variable Unmarshal : string -> option Config.

Local Abbreviation init := (actionInit Unmarshal).

(** The configuration [actionInit] starts from. *)
Lemma actionInit_default file remoteAddr forwardAddr token :
  Default (init file "" remoteAddr forwardAddr token)
  = mkProfile remoteAddr forwardAddr token
      (DynamicForwards
         (Default match loadConfig Unmarshal file with
                  | inl config => config
                  | inr _ => freshConfig
                  end)).
Proof. reflexivity. Qed.

Lemma actionInit_named file profileName remoteAddr forwardAddr token :
  profileName <> "" ->
  exists dynamicForwards,
    Profiles (init file profileName remoteAddr forwardAddr token) !! profileName
    = Some (Some (mkProfile remoteAddr forwardAddr token dynamicForwards)).
Proof.
  intros Hn. unfold actionInit.
  destruct (String.eqb_spec profileName ""); [contradiction|].
  eexists. cbn [Profiles]. apply lookup_insert_eq.
Qed.

End Load.

(** X12.  The configuration that [actionInit] builds and hands to [Save]
    can be applied: for every configuration file, whether it is missing,
    unreadable, malformed or has a nil entry under the profile's name,
    [ApplyProfile] with the name given to [init] returns without an error
    and does not panic.  After it each of the remote address, the forward
    address and the token is the value given to [init] when that is
    non-empty; for the default profile (the empty name) they are the values
    given to [init] in any case. *)
Theorem actionInit_then_ApplyProfile
        (Unmarshal : string -> option Config) (file : read_result)
        (profileName remoteAddr forwardAddr token : string) :
  let written := actionInit Unmarshal file profileName remoteAddr forwardAddr token in
  exists c,
    ApplyProfile written profileName = Returned (c, None) /\
    (remoteAddr <> "" -> RemoteAddr (Default c) = remoteAddr) /\
    (forwardAddr <> "" -> ForwardAddr (Default c) = forwardAddr) /\
    (token <> "" -> Token (Default c) = token) /\
    (profileName = "" ->
     c = written /\ RemoteAddr (Default c) = remoteAddr
     /\ ForwardAddr (Default c) = forwardAddr /\ Token (Default c) = token).
Proof.
  intros written. destruct (String.eqb_spec profileName "") as [->|Hn].
  - exists written. split; [reflexivity|]. subst written.
    rewrite actionInit_default. cbn. repeat split.
  - destruct (actionInit_named Unmarshal file profileName remoteAddr forwardAddr
                               token Hn) as [dynamicForwards Hl].
    fold written in Hl.
    destruct (ApplyProfile_found written profileName _ Hn Hl)
      as (c & Happly & _ & Hr & Hf & Ht & _).
    exists c. split; [exact Happly|]. cbn in Hr, Hf, Ht.
    split; [|split; [|split]].
    + intros H. rewrite Hr. now apply override_spec.
    + intros H. rewrite Hf. now apply override_spec.
    + intros H. rewrite Ht. now apply override_spec.
    + intros H. contradiction.
Qed.

Lemma actionInit_then_ApplyProfile_witness :
  exists c,
    ApplyProfile
      (actionInit unmarshal_null_profile (Content "profiles: {dev: null}")
                  "dev" "example.com:2222" "http://localhost:8080" "s3cr3t") "dev"
    = Returned (c, None)
    /\ RemoteAddr (Default c) = "example.com:2222"
    /\ ForwardAddr (Default c) = "http://localhost:8080"
    /\ Token (Default c) = "s3cr3t".
Proof.
  destruct (actionInit_then_ApplyProfile
              unmarshal_null_profile (Content "profiles: {dev: null}")
              "dev" "example.com:2222" "http://localhost:8080" "s3cr3t")
    as (c & Happly & Hr & Hf & Ht & _).
  exists c. split; [exact Happly|]. split; [|split].
  - apply Hr. discriminate.
  - apply Hf. discriminate.
  - apply Ht. discriminate.
Defined.

(** X13.  [init] of a named profile leaves every other profile as it
    applies: on the configuration [actionInit] builds, [ApplyProfile] with
    another name ends as it does on the configuration that was loaded, with
    the same error or panic and the same top-level values. *)
Theorem actionInit_keeps_other_profiles
        (Unmarshal : string -> option Config) (file : read_result) (loaded : Config)
        (profileName remoteAddr forwardAddr token other : string) :
  loadConfig Unmarshal file = inl loaded ->
  profileName <> "" -> other <> profileName ->
  match ApplyProfile loaded other with
  | Returned (c, err) =>
      exists c',
        ApplyProfile
          (actionInit Unmarshal file profileName remoteAddr forwardAddr token) other
        = Returned (c', err)
        /\ Default c' = Default c
  | Panicked =>
      ApplyProfile
        (actionInit Unmarshal file profileName remoteAddr forwardAddr token) other
      = Panicked
  end.
Proof.
  intros Hload Hn Hother. unfold actionInit. rewrite Hload.
  destruct (String.eqb_spec profileName ""); [contradiction|].
  unfold ApplyProfile. cbn [Profiles Default].
  destruct (String.eqb other ""); [now eexists|].
  rewrite lookup_insert_ne by congruence.
  destruct (Profiles loaded !! other) as [[profile|]|]; [|reflexivity|];
    now eexists.
Qed.

Lemma actionInit_keeps_other_profiles_witness :
  ApplyProfile
    (actionInit unmarshal_null_profile (Content "profiles: {dev: null}")
                "prod" "example.com:2222" "http://localhost:8080" "s3cr3t") "dev"
  = Panicked.
Proof.
  exact (actionInit_keeps_other_profiles
           unmarshal_null_profile (Content "profiles: {dev: null}")
           config_with_null_profile
           "prod" "example.com:2222" "http://localhost:8080" "s3cr3t" "dev"
           eq_refl ltac:(discriminate) ltac:(discriminate)).
Defined.

(** X14.  A configuration file that cannot be read or parsed is treated by
    [init] as a missing one: what it held is dropped, and the configuration
    handed to [Save] has nothing but what [init] was given. *)
Theorem actionInit_load_failure
        (Unmarshal : string -> option Config) (file : read_result) (e : load_error)
        (profileName remoteAddr forwardAddr token : string) :
  loadConfig Unmarshal file = inr e ->
  let written := actionInit Unmarshal file profileName remoteAddr forwardAddr token in
  written = actionInit Unmarshal NotExist profileName remoteAddr forwardAddr token /\
  (profileName = "" ->
   written = mkConfig (mkProfile remoteAddr forwardAddr token "") ∅) /\
  (profileName <> "" ->
   written = mkConfig zeroProfile
               {[ profileName := Some (mkProfile remoteAddr forwardAddr token "") ]}).
Proof.
  intros Hload written. subst written. unfold actionInit. rewrite Hload.
  cbn [loadConfig]. split; [reflexivity|]. split.
  - intros ->. reflexivity.
  - intros Hn. destruct (String.eqb_spec profileName ""); [contradiction|].
    cbn [Profiles freshConfig]. rewrite lookup_empty. reflexivity.
Qed.

Lemma actionInit_load_failure_witness :
  actionInit (fun _ => None) (Content "profiles: [") "dev" "r" "f" "t"
  = mkConfig zeroProfile {[ "dev" := Some (mkProfile "r" "f" "t" "") ]}.
Proof.
  destruct (actionInit_load_failure (fun _ => None) (Content "profiles: [")
              ErrUnmarshal "dev" "r" "f" "t" eq_refl) as (_ & _ & H).
  apply H. discriminate.
Defined.

End ClientMore.

(* ===================================================================== *)
(** * Signing in: what [handleOIDCCallback] lets through                 *)
(* ===================================================================== *)

Module OIDCFacts.

Import GoStringsMore OIDC Cases.
Local Open Scope string_scope.

Lemma HasSuffix_nil_r s : HasSuffix s "" = true.
Proof. induction s as [|c s IH]; [reflexivity|]. exact IH. Qed.

(** [HasSuffix s suffix] holds exactly when [s] ends with [suffix]. *)
Lemma HasSuffix_spec s suffix :
  HasSuffix s suffix = true <-> exists front, s = front ++ suffix.
Proof.
  split.
  - induction s as [|c s IH]; cbn [HasSuffix].
    + destruct (String.eqb_spec "" suffix) as [<-|]; [|discriminate].
      intros _. now exists "".
    + destruct (String.eqb_spec (String c s) suffix) as [<-|_].
      * intros _. now exists "".
      * intros H. destruct (IH H) as [front ->]. now exists (String c front).
  - intros [front ->]. induction front as [|c front IH].
    + change ("" ++ suffix) with suffix.
      destruct suffix; cbn [HasSuffix]; now rewrite String.eqb_refl.
    + change (String c front ++ suffix) with (String c (front ++ suffix)).
      cbn [HasSuffix]. rewrite IH. now destruct (String.eqb _ _).
Qed.

Lemma string_claim_nonempty claims key v :
  string_claim claims key = v -> v <> "" -> claims !! key = Some (AnyString v).
Proof.
  unfold string_claim. destruct (claims !! key) as [[s|]|]; congruence.
Qed.

(** X15.  What a successful [handleOIDCCallback] guarantees about the claims
    of the identity provider: the identifier is the non-empty string under
    the mapped identifier field; the display name is not empty, and it is
    the string under the mapped display-name field or else the identifier;
    and when a domain is required, the claim under the mapped email field is
    a string that ends with ["@"] followed by that domain. *)
Theorem handleOIDCCallback_success idp claims userInfo :
  handleOIDCCallback idp (inr claims) = inl userInfo ->
  let mapping := idpFieldMapping idp in
  Identifier userInfo <> "" /\
  claims !! fmIdentifier mapping = Some (AnyString (Identifier userInfo)) /\
  DisplayName userInfo <> "" /\
  (DisplayName userInfo = Identifier userInfo \/
   fmDisplayName mapping <> "" /\
   claims !! fmDisplayName mapping = Some (AnyString (DisplayName userInfo))) /\
  (idpRequiredDomain idp <> "" ->
   exists front,
     claims !! fmEmail mapping
     = Some (AnyString (front ++ "@" ++ idpRequiredDomain idp))).
Proof.
  intros H. cbv zeta. unfold handleOIDCCallback in H.
  set (mapping := idpFieldMapping idp) in *.
  destruct (String.eqb_spec (string_claim claims (fmIdentifier mapping)) "")
    as [|Hid]; [discriminate|].
  set (displayName :=
         if negb (String.eqb (fmDisplayName mapping) "")
         then string_claim claims (fmDisplayName mapping) else "") in H.
  assert (exists d, (if String.eqb displayName "" then
                       string_claim claims (fmIdentifier mapping)
                     else displayName) = d /\ d <> "" /\
                    (d = string_claim claims (fmIdentifier mapping) \/
                     fmDisplayName mapping <> "" /\
                     claims !! fmDisplayName mapping = Some (AnyString d)))
    as (d & Hd & Hdne & Hdis).
  { eexists. split; [reflexivity|].
    destruct (String.eqb_spec displayName "") as [|Hne]; [split; [exact Hid|now left]|].
    split; [exact Hne|right]. subst displayName.
    destruct (String.eqb_spec (fmDisplayName mapping) "") as [|Hm];
      cbn [negb] in *; [congruence|].
    split; [exact Hm|]. now apply string_claim_nonempty. }
  rewrite Hd in H.
  assert (userInfo = mkUserInfo (string_claim claims (fmIdentifier mapping)) d
          /\ (idpRequiredDomain idp <> "" ->
              HasSuffix (string_claim claims (fmEmail mapping))
                        ("@" ++ idpRequiredDomain idp) = true)) as [-> Hdom].
  { destruct (String.eqb_spec (idpRequiredDomain idp) "") as [Heq|Hne];
      cbn [negb] in H.
    - inversion H. split; [reflexivity|congruence].
    - destruct (HasSuffix _ _) eqn:Hs; cbn [negb] in H; [|discriminate].
      inversion H. now split. }
  cbn [Identifier DisplayName].
  split; [exact Hid|]. split; [now apply string_claim_nonempty|].
  split; [exact Hdne|]. split; [exact Hdis|].
  intros Hreq. apply Hdom, HasSuffix_spec in Hreq as [front Hfront].
  exists front. apply string_claim_nonempty; [exact Hfront|].
  destruct front; discriminate.
Qed.

Lemma handleOIDCCallback_success_witness :
  handleOIDCCallback google (inr alice_claims)
  = inl (mkUserInfo "alice@example.com" "Alice")
  /\ exists front,
       alice_claims !! "email" = Some (AnyString (front ++ "@" ++ "example.com")).
Proof.
  assert (handleOIDCCallback google (inr alice_claims)
          = inl (mkUserInfo "alice@example.com" "Alice")) as H by reflexivity.
  split; [exact H|].
  destruct (handleOIDCCallback_success google alice_claims _ H)
    as (_ & _ & _ & _ & Hdomain).
  apply Hdomain. discriminate.
Defined.

End OIDCFacts.

(* ===================================================================== *)
(** * The web server: the API and the sign-in, theorems                  *)
(* ===================================================================== *)

Module WebApiFacts.

Import GoStrings GoStringsMore Database DatabaseFacts DatabaseHistory DatabaseMore.
Import WebServer WebServerFacts PrincipalStore PrincipalStoreFacts WebApi.
Import Scenario Cases.
Local Open Scope string_scope.

Lemma store_eta st : mkStore (tunnelsDB st) (principalsTable st) = st.
Proof. now destruct st. Qed.

(** The middleware lets a request through only for a session whose
    [userID] is positive and is the id of the principal it maps. *)
Lemma authenticate_inl tb s p :
  authenticate tb s = inl p ->
  exists userID, session_userID s = Some userID /\ (0 < userID)%Z
                 /\ In p (principals tb) /\ Principals.ID p = userID.
Proof.
  unfold authenticate. destruct (session_userID s) as [userID|]; [|discriminate].
  destruct (Z.leb_spec userID 0); [discriminate|].
  unfold GetPrincipalByID.
  destruct (first_principal _) as [q|] eqn:E; [|discriminate].
  intros Heq; inversion Heq; subst.
  apply first_principal_In, filter_In in E as [Hin Hid].
  unfold principal_id_is in Hid. apply Z.eqb_eq in Hid. eauto.
Qed.

Lemma authenticate_signed_in tb p s :
  table_ok tb -> In p (principals tb) ->
  session_userID s = Some (Principals.ID p) ->
  authenticate tb s = inl p.
Proof.
  intros Hok Hin Hs. unfold authenticate. rewrite Hs.
  destruct (ids_in_range tb Hok p Hin) as [Hpos _].
  destruct (Z.leb_spec (Principals.ID p) 0); [lia|].
  now rewrite GetPrincipalByID_found.
Qed.

Section Server.

Variable NormalizeIdentifier : string -> string + string.
Variables proxyScheme proxyDomain : string.

Local Abbreviation api := (serveAPI NormalizeIdentifier proxyScheme proxyDomain).
Local Abbreviation url := (tunnelURL proxyScheme proxyDomain).
Local Abbreviation listed :=
  (fun db (p : Principals.Principal) =>
     map (fun t => (t, url (Subdomain t)))
         (List.filter (fun t => (PrincipalID t =? Principals.ID p)%Z) (tunnels db))).

Lemma serveAPI_rejected st s answer req now :
  authenticate (principalsTable st) s = inr answer ->
  api st s req now = (st, answer).
Proof. intros H. unfold serveAPI. now rewrite H. Qed.

Lemma serveAPI_GetTunnels st s p now :
  authenticate (principalsTable st) s = inl p ->
  api st s GetTunnels now = (st, TunnelList StatusOK (listed (tunnelsDB st) p)).
Proof. intros H. unfold serveAPI. now rewrite H. Qed.

(** X16.  The API answers a session without a positive [userID] with 401,
    so every request after a sign-out; it answers a [userID] that no
    principal has with 500; in both cases nothing is stored.  Whenever a
    request changes what is stored, the [userID] of its session is the id of
    a stored principal. *)
Theorem serveAPI_requires_principal st s req now :
  ((forall userID, session_userID s = Some userID -> (userID <= 0)%Z) ->
   api st s req now = (st, StatusOnly StatusUnauthorized)) /\
  api st (fst (signOut s)) req now = (st, StatusOnly StatusUnauthorized) /\
  (forall userID,
     session_userID s = Some userID -> (0 < userID)%Z ->
     (forall p, In p (principals (principalsTable st)) -> Principals.ID p <> userID) ->
     exists body, api st s req now = (st, Plain StatusInternalServerError body)) /\
  (fst (api st s req now) <> st ->
   exists p, In p (principals (principalsTable st))
             /\ session_userID s = Some (Principals.ID p)).
Proof.
  split; [|split; [|split]].
  - intros H. apply serveAPI_rejected. unfold authenticate.
    destruct (session_userID s) as [userID|]; [|reflexivity].
    specialize (H userID eq_refl).
    destruct (Z.leb_spec userID 0); [reflexivity|lia].
  - now apply serveAPI_rejected.
  - intros userID Hs Hpos Hnone. eexists. apply serveAPI_rejected.
    unfold authenticate. rewrite Hs.
    destruct (Z.leb_spec userID 0); [lia|].
    unfold GetPrincipalByID. rewrite first_principal_absent; [reflexivity|].
    intros q Hq. unfold principal_id_is. apply Z.eqb_neq. now apply Hnone.
  - intros H.
    destruct (authenticate (principalsTable st) s) as [p|answer] eqn:Hauth.
    + apply authenticate_inl in Hauth as (userID & Hs & _ & Hin & <-). eauto.
    + rewrite (serveAPI_rejected _ _ _ _ _ Hauth) in H. now destruct H.
Qed.


Lemma patchTunnel_JSON db p idParam form now db' status fields :
  patchTunnel NormalizeIdentifier proxyScheme proxyDomain db p idParam form now
  = (db', JSON status fields) ->
  exists t formSubdomain subdomain,
    (0 < fst (ParseInt idParam))%Z /\
    form = Some formSubdomain /\ NormalizeIdentifier formSubdomain = inl subdomain /\
    In t (tunnels db) /\ ID t = fst (ParseInt idParam) /\
    PrincipalID t = Principals.ID p /\
    db' = mkDB (update_rows (id_is (ID t)) (set_subdomain subdomain) now (tunnels db))
               (tunnels_id_seq db) /\
    status = StatusOK /\
    fields = [("subdomain", subdomain); ("url", url subdomain)].
Proof.
  unfold patchTunnel. destruct (Z.leb_spec (fst (ParseInt idParam)) 0) as [|Hpos];
    [discriminate|].
  destruct form as [formSubdomain|]; [|discriminate].
  destruct (NormalizeIdentifier formSubdomain) as [subdomain|e] eqn:Hnorm;
    [|discriminate].
  destruct (GetTunnelByID db (fst (ParseInt idParam))) as [t [e|]] eqn:Hget;
    [discriminate|].
  destruct (PrincipalID t =? Principals.ID p)%Z eqn:Hown; cbn [negb];
    [|discriminate].
  apply First_found in Hget as [Hin Hid]. unfold id_is in Hid.
  apply Z.eqb_eq in Hid, Hown.
  unfold UpdateTunnelSubdomain.
  destruct (subdomain_taken db (fst (ParseInt idParam)) subdomain);
    [cbn; discriminate|].
  intros H. inversion H; subst. rewrite <- Hid.
  exists t, formSubdomain, subdomain. repeat split; auto; lia.
Qed.

(** X18.  When [PATCH /tunnels/{id}] answers 200, the tunnel of that id
    belongs to the principal of the session, the answer carries the
    normalized subdomain and its URL, and the next [GET /tunnels] of the
    session lists that tunnel under the new subdomain with the same URL,
    and lists nothing else under its id. *)
Theorem patchTunnel_then_getTunnels st s p idParam form now st' fields :
  reachable_store (tunnelsDB st) ->
  authenticate (principalsTable st) s = inl p ->
  api st s (PatchTunnel idParam form) now = (st', Fields StatusOK fields) ->
  exists t formSubdomain subdomain,
    In t (tunnels (tunnelsDB st)) /\ ID t = fst (ParseInt idParam) /\
    PrincipalID t = Principals.ID p /\
    form = Some formSubdomain /\ NormalizeIdentifier formSubdomain = inl subdomain /\
    fields = [("subdomain", subdomain); ("url", url subdomain)] /\
    forall now',
      exists items,
        api st' s GetTunnels now' = (st', TunnelList StatusOK items) /\
        In (renamed t subdomain now, url subdomain) items /\
        (forall u link, In (u, link) items -> ID u = ID t ->
           u = renamed t subdomain now /\ link = url subdomain).
Proof.
  intros Hr Hauth H. unfold serveAPI in H. rewrite Hauth in H.
  destruct (patchTunnel _ _ _ _ _ _ _ _) as [db' answer] eqn:Hpatch.
  destruct answer as [status body|status fields']; cbn [of_response] in H;
    [discriminate|].
  inversion H; subst; clear H.
  apply patchTunnel_JSON in Hpatch
    as (t & formSubdomain & subdomain & Hpos & -> & Hnorm & Hin & Hid & Hown
        & -> & _ & ->).
  exists t, formSubdomain, subdomain. repeat split; auto.
  intros now'. eexists. split; [apply serveAPI_GetTunnels; exact Hauth|].
  cbn [tunnelsDB tunnels]. split.
  - apply in_map_iff. exists (renamed t subdomain now). split; [reflexivity|].
    apply filter_In. split.
    + apply In_update_rows. exists t. split; [exact Hin|].
      unfold id_is. now rewrite Z.eqb_refl.
    + cbn [renamed PrincipalID]. now apply Z.eqb_eq.
  - intros u link Hu Hsame. apply in_map_iff in Hu as (u' & Heq & Hu').
    inversion Heq; subst u' link; clear Heq.
    apply filter_In in Hu' as [Hu' _].
    apply In_update_rows in Hu' as (t0 & Ht0 & Hu').
    unfold id_is in Hu'. destruct (Z.eqb_spec (ID t0) (ID t)) as [Heq|Hne].
    + assert (t0 = t) as ->.
      { apply (NoDup_map_inj ID (tunnels (tunnelsDB st))); auto.
        apply reachable_constraints, Hr. }
      subst u. now split.
    + subst u. congruence.
Qed.

(** X19.  [PATCH /tunnels/{id}] by the owner of the tunnel, to a
    subdomain that another tunnel carries, is answered 409 and stores
    nothing. *)
Theorem patchTunnel_conflict st s p idParam formSubdomain subdomain now t u :
  reachable_store (tunnelsDB st) ->
  authenticate (principalsTable st) s = inl p ->
  NormalizeIdentifier formSubdomain = inl subdomain ->
  In t (tunnels (tunnelsDB st)) -> ID t = fst (ParseInt idParam) ->
  PrincipalID t = Principals.ID p ->
  In u (tunnels (tunnelsDB st)) -> u <> t -> Subdomain u = subdomain ->
  api st s (PatchTunnel idParam (Some formSubdomain)) now
  = (st, Plain StatusConflict "Subdomain is already taken").
Proof.
  intros Hr Hauth Hnorm Ht Hid Hown Hu Hne Hsub.
  pose proof (reachable_constraints _ Hr) as [Hpk _ _].
  destruct (tunnel_ids_in_range _ Hr) as [_ Hrange].
  unfold serveAPI. rewrite Hauth. unfold patchTunnel. rewrite <- Hid.
  destruct (Z.leb_spec (ID t) 0); [specialize (Hrange t Ht); lia|].
  rewrite Hnorm, (GetTunnelByID_found _ _ Hpk Ht), Hown, Z.eqb_refl. cbn [negb].
  rewrite (UpdateTunnelSubdomain_taken _ _ _ _
             (subdomain_taken_true _ _ _ u t Hu Ht eq_refl
                ltac:(intros E; apply Hne; now apply (NoDup_map_inj ID _ u t Hpk))
                Hsub)).
  cbn [of_response]. now rewrite store_eta.
Qed.

(** X20.  [DELETE /tunnels/{id}] by the owner of the tunnel is answered
    200; afterwards the tunnel is not found by its id, and [GET /tunnels]
    of the session lists what it listed before without that tunnel. *)
Theorem deleteTunnel_then_getTunnels st s p idParam t now :
  reachable_store (tunnelsDB st) ->
  authenticate (principalsTable st) s = inl p ->
  In t (tunnels (tunnelsDB st)) -> ID t = fst (ParseInt idParam) ->
  PrincipalID t = Principals.ID p ->
  let st' := fst (api st s (DeleteTunnel idParam) now) in
  snd (api st s (DeleteTunnel idParam) now) = Plain StatusOK "OK" /\
  GetTunnelByID (tunnelsDB st') (ID t) = (zeroTunnel, Some ErrRecordNotFound) /\
  forall now',
    exists items,
      api st' s GetTunnels now' = (st', TunnelList StatusOK items) /\
      forall item,
        In item items <->
        In item (listed (tunnelsDB st) p) /\ ID (fst item) <> ID t.
Proof.
  intros Hr Hauth Ht Hid Hown st'.
  pose proof (reachable_constraints _ Hr) as [Hpk _ _].
  destruct (tunnel_ids_in_range _ Hr) as [_ Hrange].
  assert (api st s (DeleteTunnel idParam) now
          = (mkStore (fst (DeleteTunnelByID (tunnelsDB st) (ID t) (Principals.ID p)))
                     (principalsTable st), Plain StatusOK "OK")) as Hdel.
  { unfold serveAPI. rewrite Hauth. unfold deleteTunnel. rewrite <- Hid.
    destruct (Z.leb_spec (ID t) 0); [specialize (Hrange t Ht); lia|reflexivity]. }
  subst st'. rewrite Hdel. cbn [fst snd tunnelsDB]. split; [reflexivity|]. split.
  - apply GetTunnelByID_gone. intros u Hu Heq. cbn [DeleteTunnelByID fst tunnels] in Hu.
    apply filter_In in Hu as [Hu Hkeep].
    assert (u = t) as -> by now apply (NoDup_map_inj ID _ u t Hpk).
    unfold id_is in Hkeep. rewrite Z.eqb_refl, Hown, Z.eqb_refl in Hkeep.
    discriminate.
  - intros now'. eexists. split; [apply serveAPI_GetTunnels; exact Hauth|].
    cbn [tunnelsDB DeleteTunnelByID fst tunnels]. intros [u link]. cbn [fst].
    rewrite !in_map_iff. split.
    + intros (u' & Heq & Hu'). inversion Heq; subst u' link; clear Heq.
      apply filter_In in Hu' as [Hu' Hmine]. apply filter_In in Hu' as [Hu' Hkeep].
      split.
      * exists u. split; [reflexivity|]. now apply filter_In.
      * intros Heq. unfold id_is in Hkeep.
        rewrite Heq, Z.eqb_refl, Hmine in Hkeep. discriminate.
    + intros [(u' & Heq & Hu') Hne]. inversion Heq; subst u' link; clear Heq.
      apply filter_In in Hu' as [Hu' Hmine].
      exists u. split; [reflexivity|]. apply filter_In. split; [|exact Hmine].
      apply filter_In. split; [exact Hu'|]. unfold id_is.
      replace (ID u =? ID t)%Z with false by (symmetry; now apply Z.eqb_neq).
      reflexivity.
Qed.

(** X21.  [DELETE /tunnels/{id}] for an id that no tunnel of the
    principal carries, because there is no such tunnel or it belongs to
    someone else, is answered 200 like a deletion, and deletes nothing. *)
Theorem deleteTunnel_of_another st s p idParam now :
  authenticate (principalsTable st) s = inl p ->
  (0 < fst (ParseInt idParam))%Z ->
  (forall t, In t (tunnels (tunnelsDB st)) -> ID t = fst (ParseInt idParam) ->
             PrincipalID t <> Principals.ID p) ->
  api st s (DeleteTunnel idParam) now = (st, Plain StatusOK "OK").
Proof.
  intros Hauth Hpos Hforeign. unfold serveAPI. rewrite Hauth. unfold deleteTunnel.
  destruct (Z.leb_spec (fst (ParseInt idParam)) 0); [lia|].
  rewrite (DeleteTunnelByID_not_owner _ _ _ Hforeign). cbn [of_response].
  now rewrite store_eta.
Qed.



End Server.

Local Abbreviation site_api := (serveAPI inl "https" "example.com").

Lemma serveAPI_requires_principal_witness :
  site_api alice_site (mkWebSession None None) (DeleteTunnel "1") 200
  = (alice_site, StatusOnly StatusUnauthorized)
  /\ exists body,
       site_api alice_site (mkWebSession (Some 5) None) GetTunnels 200
       = (alice_site, Plain StatusInternalServerError body).
Proof.
  destruct (serveAPI_requires_principal inl "https" "example.com" alice_site
              (mkWebSession None None) (DeleteTunnel "1") 200) as (H401 & _).
  destruct (serveAPI_requires_principal inl "https" "example.com" alice_site
              (mkWebSession (Some 5) None) GetTunnels 200) as (_ & _ & H500 & _).
  split.
  - apply H401. intros userID H. discriminate H.
  - apply (H500 5 eq_refl); [lia|].
    intros p Hp. vm_compute in Hp. destruct Hp as [<-|[]]. vm_compute. discriminate.
Defined.


Lemma patchTunnel_then_getTunnels_witness :
  exists t subdomain,
    In t (tunnels alice_store) /\ ID t = 1 /\
    In (renamed t subdomain 300, "https://wonderland.example.com")
       [(mkTunnel 1 1 "Default" "t0k3n" "wonderland" 0 100 300,
         "https://wonderland.example.com")].
Proof.
  destruct (patchTunnel_then_getTunnels inl "https" "example.com"
              alice_site alice_signed_in alice "1" (Some "wonderland") 300
              (fst (site_api alice_site alice_signed_in
                             (PatchTunnel "1" (Some "wonderland")) 300))
              [("subdomain", "wonderland"); ("url", "https://wonderland.example.com")])
    as (t & formSubdomain & subdomain & Hin & Hid & _ & Hform & Hnorm & _ & Hget).
  - apply store_exec, store_empty.
  - reflexivity.
  - reflexivity.
  - exists t, subdomain. split; [exact Hin|]. split; [exact Hid|].
    destruct (Hget 400) as (items & Hitems & Hlisted & _).
    inversion Hform; subst formSubdomain. inversion Hnorm; subst subdomain.
    vm_compute in Hitems. inversion Hitems; subst items. exact Hlisted.
Defined.

Lemma patchTunnel_conflict_witness :
  site_api (mkStore carol_store alice_table) alice_signed_in
           (PatchTunnel "1" (Some "carol")) 300
  = (mkStore carol_store alice_table,
     Plain StatusConflict "Subdomain is already taken").
Proof.
  apply (patchTunnel_conflict inl "https" "example.com"
           (mkStore carol_store alice_table) alice_signed_in alice "1"
           "carol" "carol" 300
           (mkTunnel 1 1 "Default" "t0k3n" "alice" 0 100 100)
           (mkTunnel 2 2 "Carol's" "c4r0l" "carol" 0 110 110)).
  - apply store_exec, store_exec, store_empty.
  - reflexivity.
  - reflexivity.
  - left. reflexivity.
  - reflexivity.
  - reflexivity.
  - right. left. reflexivity.
  - discriminate.
  - reflexivity.
Defined.

Lemma deleteTunnel_then_getTunnels_witness :
  snd (site_api alice_site alice_signed_in (DeleteTunnel "1") 300)
  = Plain StatusOK "OK"
  /\ GetTunnelByID
       (tunnelsDB (fst (site_api alice_site alice_signed_in (DeleteTunnel "1") 300))) 1
     = (zeroTunnel, Some ErrRecordNotFound).
Proof.
  destruct (deleteTunnel_then_getTunnels inl "https" "example.com"
              alice_site alice_signed_in alice "1"
              (mkTunnel 1 1 "Default" "t0k3n" "alice" 0 100 100) 300)
    as (Hok & Hgone & _).
  - apply store_exec, store_empty.
  - reflexivity.
  - left. reflexivity.
  - reflexivity.
  - reflexivity.
  - split; [exact Hok|exact Hgone].
Defined.

Lemma deleteTunnel_of_another_witness :
  site_api (mkStore carol_store alice_table) alice_signed_in (DeleteTunnel "2") 300
  = (mkStore carol_store alice_table, Plain StatusOK "OK").
Proof.
  apply (deleteTunnel_of_another inl "https" "example.com"
           (mkStore carol_store alice_table) alice_signed_in alice "2" 300).
  - reflexivity.
  - reflexivity.
  - intros t Ht Hid. vm_compute in Ht.
    destruct Ht as [<-|[<-|[]]]; [discriminate Hid|discriminate].
Defined.


(** ** The sign-in *)

Lemma UpsertPrincipal_result tb opts now tb' p :
  reachable_table tb ->
  UpsertPrincipal tb opts now = (tb', (p, None)) ->
  In p (principals tb') /\ Principals.Identifier p = optIdentifier opts
  /\ table_ok tb'
  /\ (forall q, In q (principals tb) -> In q (principals tb')).
Proof.
  intros Hr H.
  assert (table_ok tb') as Hok.
  { replace tb' with (fst (UpsertPrincipal tb opts now)) by now rewrite H.
    apply reachable_table_ok. now constructor. }
  unfold UpsertPrincipal in H.
  destruct (first_principal _) as [found|] eqn:E.
  - inversion H; subst. apply first_principal_In, filter_In in E as [Hin Hid].
    unfold identifier_is in Hid. apply String.eqb_eq in Hid.
    split; [exact Hin|]. split; [exact Hid|]. split; [exact Hok|auto].
  - destruct (existsb _ _); inversion H; subst. cbn [principals Principals.Identifier].
    split; [apply in_or_app; right; now left|]. split; [reflexivity|].
    split; [exact Hok|]. intros q Hq. apply in_or_app. now left.
Qed.

Lemma UpsertPrincipal_no_error tb opts now :
  reachable_table tb -> snd (snd (UpsertPrincipal tb opts now)) = None.
Proof.
  intros Hr. destruct (reachable_table_ok tb Hr) as [[Hrange _ _] _].
  unfold UpsertPrincipal. destruct (first_principal _); [reflexivity|].
  destruct (existsb _ _) eqn:E; [|reflexivity].
  apply existsb_exists in E as (q & Hq & Hid). unfold principal_id_is in Hid.
  apply Z.eqb_eq in Hid. specialize (Hrange q Hq). lia.
Qed.

Section SignIn.

Variable NormalizeIdentifier : string -> string + string.
Variable quote : string -> string.
Variable callback_error_text : OIDC.callback_error -> string.

Local Abbreviation callback :=
  (oidcCallback NormalizeIdentifier quote callback_error_text).

Lemma oidcCallback_drops_nonce st s state userInfo token now :
  session_nonce (snd (fst (callback true st s state userInfo token now))) = None.
Proof.
  unfold oidcCallback. cbn [negb].
  destruct (negb (String.eqb _ state)); [reflexivity|].
  destruct userInfo as [userInfo|e]; [|reflexivity].
  destruct (UpsertPrincipal _ _ _) as [tb' [principle [e|]]]; [reflexivity|].
  destruct (GetTunnelsByPrincipalID _ _) as [tunnels [e|]]; [reflexivity|].
  destruct (length tunnels =? 0)%nat; [|reflexivity].
  destruct (NormalizeIdentifier _); [|reflexivity].
  destruct (CreateTunnel _ _ _) as [db' [t [e|]]]; reflexivity.
Qed.

(** X23.  The nonce of a sign-in is used once.  Whatever a callback
    answers, the session has no nonce afterwards, and any further callback
    with a non-empty state is answered 400 with the store and the session
    left as they are.  A callback whose state is not the nonce of the
    session stores nothing and signs nobody in. *)
Theorem oidcCallback_nonce_is_used_once st s state userInfo token now :
  let st1 := fst (fst (callback true st s state userInfo token now)) in
  let s1 := snd (fst (callback true st s state userInfo token now)) in
  session_nonce s1 = None /\
  (forall state' userInfo' token' now',
     state' <> "" ->
     exists body,
       callback true st1 s1 state' userInfo' token' now'
       = (st1, s1, Plain StatusBadRequest body)) /\
  (session_nonce s <> Some state -> (session_nonce s = None -> state <> "") ->
   st1 = st /\ session_userID s1 = session_userID s /\
   exists body,
     snd (callback true st s state userInfo token now) = Plain StatusBadRequest body).
Proof.
  intros st1 s1.
  assert (session_nonce s1 = None) as Hnone by apply oidcCallback_drops_nonce.
  split; [exact Hnone|]. split.
  - intros state' userInfo' token' now' Hne. eexists.
    unfold oidcCallback at 1. cbn [negb]. rewrite Hnone.
    destruct (String.eqb_spec "" state') as [Heq|_]; [congruence|]. cbn [negb].
    unfold drop_nonce. destruct s1 as [userID nonce]. cbn in Hnone. subst nonce.
    reflexivity.
  - intros Hmis Hempty. subst st1 s1. unfold oidcCallback. cbn [negb].
    destruct (String.eqb_spec
                match session_nonce s with Some n => n | None => "" end state)
      as [Heq|_]; cbn [negb].
    + exfalso. destruct (session_nonce s) as [n|]; [congruence|].
      now apply Hempty.
    + cbn. repeat split. now eexists.
Qed.

(** X24.  A callback that ends with a redirect has signed a principal in:
    an identity provider is configured, the state is the nonce of the
    session, [handleOIDCCallback] has returned a user, and afterwards the
    session passes the middleware of the API as the principal with the
    identifier of that user, who has at least one tunnel.  No principal that
    was stored is lost. *)
Theorem oidcCallback_signs_in configured st s state userInfo token now st' s' location :
  reachable_table (principalsTable st) ->
  callback configured st s state userInfo token now = (st', s', Redirect location) ->
  configured = true /\
  match session_nonce s with Some n => n | None => "" end = state /\
  exists user p,
    userInfo = inl user /\
    authenticate (principalsTable st') s' = inl p /\
    Principals.Identifier p = OIDC.Identifier user /\
    (exists t, In t (tunnels (tunnelsDB st')) /\ PrincipalID t = Principals.ID p) /\
    (forall q, In q (principals (principalsTable st)) ->
               In q (principals (principalsTable st'))).
Proof.
  intros Hr H. unfold oidcCallback in H.
  destruct configured; cbn [negb] in H; [|discriminate]. split; [reflexivity|].
  destruct (String.eqb_spec
              match session_nonce s with Some n => n | None => "" end state)
    as [Heq|_]; cbn [negb] in H; [|discriminate].
  split; [exact Heq|].
  destruct userInfo as [user|e]; [|discriminate].
  destruct (UpsertPrincipal _ _ _) as [tb' [p [e|]]] eqn:Hup; [discriminate|].
  apply UpsertPrincipal_result in Hup as (Hin & Hident & Hok & Hkept); [|exact Hr].
  cbn [optIdentifier] in Hident.
  exists user, p. split; [reflexivity|].
  unfold GetTunnelsByPrincipalID in H.
  destruct (length _ =? 0)%nat eqn:Hlen.
  - destruct (NormalizeIdentifier _) as [subdomain|e]; [|discriminate].
    unfold CreateTunnel in H.
    cbn [optPrincipalID optName optToken optSubdomain] in H.
    destruct (existsb _ _); [discriminate|].
    inversion H; subst; clear H. cbn [principalsTable tunnelsDB tunnels].
    split; [now apply authenticate_signed_in|]. split; [exact Hident|].
    split; [|exact Hkept].
    eexists. split; [apply in_or_app; right; now left|reflexivity].
  - inversion H; subst; clear H. cbn [principalsTable tunnelsDB].
    split; [now apply authenticate_signed_in|]. split; [exact Hident|].
    split; [|exact Hkept].
    destruct (List.filter _ _) as [|t rest] eqn:Hf; [discriminate|].
    assert (In t (List.filter
                    (fun t => (PrincipalID t =? Principals.ID p)%Z)
                    (tunnels (tunnelsDB st)))) as Ht by (rewrite Hf; now left).
    apply filter_In in Ht as [Ht Hown]. apply Z.eqb_eq in Hown. now exists t.
Qed.

(** X25.  The callback of a user who is already stored and has a tunnel
    writes nothing: no principal, no tunnel, and the stored display name
    stays.  It signs the stored principal in. *)
Theorem oidcCallback_returning_user st s state user token now p t :
  reachable_table (principalsTable st) ->
  session_nonce s = Some state ->
  In p (principals (principalsTable st)) ->
  Principals.Identifier p = OIDC.Identifier user ->
  In t (tunnels (tunnelsDB st)) -> PrincipalID t = Principals.ID p ->
  callback true st s state (inl user) token now
  = (st, mkWebSession (Some (Principals.ID p)) None, Redirect "/").
Proof.
  intros Hr Hs Hp Hident Ht Hown. unfold oidcCallback. cbn [negb].
  rewrite Hs, String.eqb_refl. cbn [negb]. rewrite <- Hident.
  rewrite (UpsertPrincipal_found _ p _ now Hr Hp).
  unfold GetTunnelsByPrincipalID.
  destruct (List.filter _ _) as [|t' rest] eqn:Hf.
  - assert (In t (List.filter
                    (fun t => (PrincipalID t =? Principals.ID p)%Z)
                    (tunnels (tunnelsDB st)))) as Hin.
    { apply filter_In. split; [exact Ht|]. now apply Z.eqb_eq. }
    rewrite Hf in Hin. destruct Hin.
  - cbn [length Nat.eqb]. now rewrite store_eta.
Qed.

(** X26.  A user without a tunnel whose default subdomain, the normalized
    identifier, is carried by a tunnel already (or whose drawn token is)
    is not signed in: the callback answers 500, the session keeps the
    [userID] it had, and no tunnel is added, although the principal is
    stored by then. *)
Theorem oidcCallback_default_tunnel_taken st s state user token now subdomain u :
  reachable_table (principalsTable st) ->
  session_nonce s = Some state ->
  NormalizeIdentifier (OIDC.Identifier user) = inl subdomain ->
  In u (tunnels (tunnelsDB st)) -> Subdomain u = subdomain \/ Token u = token ->
  let upserted :=
    UpsertPrincipal (principalsTable st)
      (mkUpsertPrincipalOptions (OIDC.Identifier user) (OIDC.DisplayName user)) now in
  (forall t, In t (tunnels (tunnelsDB st)) ->
             PrincipalID t <> Principals.ID (fst (snd upserted))) ->
  let result := callback true st s state (inl user) token now in
  (exists body, snd result = Plain StatusInternalServerError body) /\
  session_userID (snd (fst result)) = session_userID s /\
  tunnels (tunnelsDB (fst (fst result))) = tunnels (tunnelsDB st) /\
  principalsTable (fst (fst result)) = fst upserted /\
  In (fst (snd upserted)) (principals (fst upserted)).
Proof.
  intros Hr Hs Hnorm Hu Htaken upserted Hnone result.
  pose proof (UpsertPrincipal_no_error (principalsTable st)
                (mkUpsertPrincipalOptions (OIDC.Identifier user)
                                          (OIDC.DisplayName user)) now Hr) as Herr.
  fold upserted in Herr. subst result. unfold oidcCallback. cbn [negb].
  rewrite Hs, String.eqb_refl. cbn [negb]. fold upserted.
  destruct upserted as [tb' [p err]] eqn:Hup. cbn [snd fst] in *. subst err.
  apply UpsertPrincipal_result in Hup as (Hin & _); [|exact Hr].
  unfold GetTunnelsByPrincipalID.
  replace (List.filter _ _) with (@nil Tunnel).
  2:{ symmetry. destruct (List.filter _ _) as [|t rest] eqn:Hf; [reflexivity|].
      assert (In t (List.filter
                      (fun t => (PrincipalID t =? Principals.ID p)%Z)
                      (tunnels (tunnelsDB st)))) as Ht by (rewrite Hf; now left).
      apply filter_In in Ht as [Ht Hown]. apply Z.eqb_eq in Hown.
      now destruct (Hnone t Ht). }
  cbn [length Nat.eqb]. rewrite Hnorm. unfold CreateTunnel.
  rewrite (create_taken (tunnelsDB st)
             (mkCreateTunnelOptions (Principals.ID p) "Default" token subdomain) u Hu)
    by (cbn; tauto).
  cbn. split; [now eexists|]. now repeat split.
Qed.

End SignIn.

Local Abbreviation site_callback :=
  (oidcCallback inl (fun s => s) (fun _ => "error")).

Lemma oidcCallback_nonce_is_used_once_witness :
  exists body,
    site_callback true alice_site (mkWebSession None None) "n0nc3"
                  (inl (OIDC.mkUserInfo "alice@example.com" "Alice")) "f00" 400
    = (alice_site, mkWebSession None None, Plain StatusBadRequest body).
Proof.
  destruct (oidcCallback_nonce_is_used_once inl (fun s => s) (fun _ => "error")
              alice_site (mkWebSession None (Some "n0nc3")) "other"
              (inl (OIDC.mkUserInfo "alice@example.com" "Alice")) "f00" 300)
    as (_ & Hreplay & _).
  apply (Hreplay "n0nc3" (inl (OIDC.mkUserInfo "alice@example.com" "Alice")) "f00" 400).
  discriminate.
Defined.

Lemma oidcCallback_signs_in_witness :
  exists p,
    authenticate alice_table (mkWebSession (Some 1) None) = inl p
    /\ Principals.Identifier p = "alice@example.com"
    /\ exists t, In t (tunnels
                         (exec empty
                            (SCreate (mkCreateTunnelOptions 1 "Default" "t0k3n"
                                        "alice@example.com") 90)))
                 /\ PrincipalID t = Principals.ID p.
Proof.
  destruct (oidcCallback_signs_in inl (fun s => s) (fun _ => "error") true
              (mkStore empty no_principals) (mkWebSession None (Some "n0nc3"))
              "n0nc3" (inl (OIDC.mkUserInfo "alice@example.com" "Alice")) "t0k3n" 90
              (mkStore (exec empty
                          (SCreate (mkCreateTunnelOptions 1 "Default" "t0k3n"
                                      "alice@example.com") 90))
                       alice_table)
              (mkWebSession (Some 1) None) "/")
    as (_ & _ & user & p & _ & Hauth & Hident & Htunnel & _).
  - apply table_empty.
  - reflexivity.
  - exists p. split; [exact Hauth|]. split; [|exact Htunnel].
    vm_compute in Hauth. inversion Hauth. reflexivity.
Defined.

Lemma oidcCallback_returning_user_witness :
  site_callback true alice_site (mkWebSession None (Some "n0nc3")) "n0nc3"
                (inl (OIDC.mkUserInfo "alice@example.com" "Alice Liddell")) "f00" 400
  = (alice_site, mkWebSession (Some 1) None, Redirect "/").
Proof.
  apply (oidcCallback_returning_user inl (fun s => s) (fun _ => "error")
           alice_site (mkWebSession None (Some "n0nc3")) "n0nc3"
           (OIDC.mkUserInfo "alice@example.com" "Alice Liddell") "f00" 400
           alice (mkTunnel 1 1 "Default" "t0k3n" "alice" 0 100 100)).
  - apply table_upsert, table_empty.
  - reflexivity.
  - left. reflexivity.
  - reflexivity.
  - left. reflexivity.
  - reflexivity.
Defined.

Lemma oidcCallback_default_tunnel_taken_witness :
  (exists body,
     snd (site_callback true alice_site (mkWebSession None (Some "n0nc3")) "n0nc3"
                        (inl (OIDC.mkUserInfo "alice" "Alice B.")) "f00" 400)
     = Plain StatusInternalServerError body)
  /\ session_userID
       (snd (fst (site_callback true alice_site (mkWebSession None (Some "n0nc3"))
                                "n0nc3" (inl (OIDC.mkUserInfo "alice" "Alice B."))
                                "f00" 400)))
     = None.
Proof.
  destruct (oidcCallback_default_tunnel_taken inl (fun s => s) (fun _ => "error")
              alice_site (mkWebSession None (Some "n0nc3")) "n0nc3"
              (OIDC.mkUserInfo "alice" "Alice B.") "f00" 400 "alice"
              (mkTunnel 1 1 "Default" "t0k3n" "alice" 0 100 100))
    as (Hanswer & Hsession & _).
  - apply table_upsert, table_empty.
  - reflexivity.
  - reflexivity.
  - left. reflexivity.
  - left. reflexivity.
  - intros t Ht. vm_compute in Ht. destruct Ht as [<-|[]]. vm_compute. discriminate.
  - split; [exact Hanswer|exact Hsession].
Defined.

End WebApiFacts.
